(** * ResolveRefsPass and IRTypeChecker: a shallow embedding

    This development embeds, function by function, the reference resolver of
    [opt/resolve-refs/ResolveRefsPass.cpp] and the completion protocol of
    [libredex/IRTypeChecker.h], and proves the properties their
    specification states about them.

    Conventions of the embedding:
    - a C++ pointer that may be null is an [option];
    - [always_assert] failures, [std::out_of_range] and null dereferences
      are the non-[Ok] results of the [Outcome] monad;
    - in-place mutation ([insn->set_method], [set_public(cls)], [stats.x++])
      is explicit state passing: a function returns the class store, the
      instruction and the statistics it leaves behind;
    - [size_t] counters are [N] with their wrap-around at [2^64];
    - what lives in headers outside this translation unit (the resolver of
      [Resolver.h], type inference, the return type specialization, ...) is
      the interface [Collaborators]. *)

From Stdlib Require Import NArith String Bool List.
From stdpp Require Import base option gmap strings list fin_maps.

Local Open Scope string_scope.
Local Open Scope N_scope.

(** ** Results of fallible code *)

Inductive Outcome (A : Type) : Type :=
  | Ok (a : A)
  | AssertionFailure (msg : string)
  | OutOfRange
  | NullDereference.
Arguments Ok {A} a.
Arguments AssertionFailure {A} msg.
Arguments OutOfRange {A}.
Arguments NullDereference {A}.

Global Instance Outcome_ret : MRet Outcome := λ A a, Ok a.
Global Instance Outcome_bind : MBind Outcome := λ A B f o,
  match o with
  | Ok a => f a
  | AssertionFailure msg => AssertionFailure msg
  | OutOfRange => OutOfRange
  | NullDereference => NullDereference
  end.

(** ** Data model *)

(** [size_t] arithmetic. *)
Definition SIZE_MAX_plus_1 : N := 2 ^ 64.
Definition size_t_incr (n : N) : N := (n + 1) mod SIZE_MAX_plus_1.
Definition size_t_add (n m : N) : N := (n + m) mod SIZE_MAX_plus_1.

(** A [DexType*] is interned: the descriptor identifies it. *)
Definition DexType := string.
Definition reg_t := N.

(** What the resolver reads and writes of a [DexClass]. *)
Record ClassInfo := mkClassInfo {
  ci_external : bool;
  ci_public : bool;
  ci_interface : bool
}.

(** A non-null [DexClass*]: the entry of the global type-to-class map it
    points to, with what that entry holds at the time of the lookup. *)
Record DexClass := mkDexClass {
  get_type : DexType;
  cls_info : ClassInfo
}.

Definition cls_is_external (cls : DexClass) : bool := ci_external (cls_info cls).
Definition is_public (cls : DexClass) : bool := ci_public (cls_info cls).
Definition is_interface (cls : DexClass) : bool := ci_interface (cls_info cls).

(** The global map behind [type_class]. *)
Abbreviation ClassStore := (gmap DexType ClassInfo).

Definition type_class (cs : ClassStore) (t : DexType) : option DexClass :=
  mkDexClass t <$> cs !! t.

Definition make_public (ci : ClassInfo) : ClassInfo :=
  {| ci_external := ci_external ci; ci_public := true;
     ci_interface := ci_interface ci |}.

Definition set_public (cs : ClassStore) (cls : DexClass) : ClassStore :=
  alter make_public (get_type cls) cs.

(** [DexMethodRef]s and [DexFieldRef]s are interned too, so that pointer
    equality is equality of the records. A [DexMethod] is a
    [DexMethodRef]; [mref_is_def] tells whether it is a definition. *)
Record DexMethodRef := mkMethod {
  mref_class : DexType;
  mref_name : string;
  mref_proto : string;
  mref_is_def : bool;
  mref_is_external : bool;
  is_final : bool
}.

Record DexFieldRef := mkField {
  fref_class : DexType;
  fref_name : string;
  fref_type : DexType;
  fref_is_def : bool;
  fref_is_external : bool
}.

Global Instance ClassInfo_eq_dec : EqDecision ClassInfo.
Proof. solve_decision. Defined.
Global Instance DexClass_eq_dec : EqDecision DexClass.
Proof. solve_decision. Defined.
Global Instance DexMethodRef_eq_dec : EqDecision DexMethodRef.
Proof. solve_decision. Defined.
Global Instance DexFieldRef_eq_dec : EqDecision DexFieldRef.
Proof. solve_decision. Defined.

Inductive MethodSearch :=
  | MS_Direct | MS_Static | MS_Virtual | MS_Super | MS_Interface | MS_Any.

Inductive FieldSearch := FS_Static | FS_Instance | FS_Any.

(** The opcodes the resolver tells apart, and a few of the others. *)
Inductive IROpcode :=
  | OPCODE_NOP | OPCODE_MOVE | OPCODE_MOVE_OBJECT | OPCODE_CONST
  | OPCODE_CHECK_CAST | OPCODE_NEW_INSTANCE
  | OPCODE_RETURN_VOID | OPCODE_RETURN | OPCODE_RETURN_WIDE
  | OPCODE_RETURN_OBJECT
  | OPCODE_INVOKE_VIRTUAL | OPCODE_INVOKE_SUPER | OPCODE_INVOKE_DIRECT
  | OPCODE_INVOKE_STATIC | OPCODE_INVOKE_INTERFACE
  | OPCODE_SGET | OPCODE_SGET_WIDE | OPCODE_SGET_OBJECT | OPCODE_SGET_BOOLEAN
  | OPCODE_SGET_BYTE | OPCODE_SGET_CHAR | OPCODE_SGET_SHORT
  | OPCODE_SPUT | OPCODE_SPUT_WIDE | OPCODE_SPUT_OBJECT | OPCODE_SPUT_BOOLEAN
  | OPCODE_SPUT_BYTE | OPCODE_SPUT_CHAR | OPCODE_SPUT_SHORT
  | OPCODE_IGET | OPCODE_IGET_WIDE | OPCODE_IGET_OBJECT | OPCODE_IGET_BOOLEAN
  | OPCODE_IGET_BYTE | OPCODE_IGET_CHAR | OPCODE_IGET_SHORT
  | OPCODE_IPUT | OPCODE_IPUT_WIDE | OPCODE_IPUT_OBJECT | OPCODE_IPUT_BOOLEAN
  | OPCODE_IPUT_BYTE | OPCODE_IPUT_CHAR | OPCODE_IPUT_SHORT.

Global Instance IROpcode_eq_dec : EqDecision IROpcode.
Proof. solve_decision. Defined.

Module opcode.
Definition is_invoke_super (op : IROpcode) : bool :=
  match op with OPCODE_INVOKE_SUPER => true | _ => false end.
Definition is_invoke_virtual (op : IROpcode) : bool :=
  match op with OPCODE_INVOKE_VIRTUAL => true | _ => false end.
Definition is_invoke_interface (op : IROpcode) : bool :=
  match op with OPCODE_INVOKE_INTERFACE => true | _ => false end.
Definition is_return_object (op : IROpcode) : bool :=
  match op with OPCODE_RETURN_OBJECT => true | _ => false end.
End opcode.

(** The reference an instruction carries (a union in [IRInstruction]). *)
Inductive InsnRef :=
  | NoRef
  | FieldRef (f : DexFieldRef)
  | MethodRef (m : DexMethodRef).

Record IRInstruction := mkInsn {
  insn_opcode : IROpcode;
  insn_srcs : list reg_t;
  insn_ref : InsnRef
}.

Global Instance InsnRef_eq_dec : EqDecision InsnRef.
Proof. solve_decision. Defined.
Global Instance IRInstruction_eq_dec : EqDecision IRInstruction.
Proof. solve_decision. Defined.

Definition has_method (insn : IRInstruction) : bool :=
  match insn_ref insn with MethodRef _ => true | _ => false end.

(** [get_method] and [get_field] assert that the reference is there. *)
Definition get_method (insn : IRInstruction) : Outcome DexMethodRef :=
  match insn_ref insn with
  | MethodRef m => Ok m
  | _ => AssertionFailure "has_method()"
  end.

Definition get_field (insn : IRInstruction) : Outcome DexFieldRef :=
  match insn_ref insn with
  | FieldRef f => Ok f
  | _ => AssertionFailure "has_field()"
  end.

Definition set_method (insn : IRInstruction) (m : DexMethodRef) : IRInstruction :=
  {| insn_opcode := insn_opcode insn; insn_srcs := insn_srcs insn;
     insn_ref := MethodRef m |}.

Definition set_field (insn : IRInstruction) (f : DexFieldRef) : IRInstruction :=
  {| insn_opcode := insn_opcode insn; insn_srcs := insn_srcs insn;
     insn_ref := FieldRef f |}.

Definition set_opcode (insn : IRInstruction) (op : IROpcode) : IRInstruction :=
  {| insn_opcode := op; insn_srcs := insn_srcs insn;
     insn_ref := insn_ref insn |}.

(** [insn->src(i)] asserts [i < srcs_size()]. *)
Definition src (insn : IRInstruction) (i : nat) : Outcome reg_t :=
  match insn_srcs insn !! i with
  | Some r => Ok r
  | None => AssertionFailure "i < srcs_size()"
  end.

Abbreviation IRCode := (list IRInstruction).

(** A [DexMethod] together with the body [get_code()] returns. *)
Record DexMethod := mkDexMethod {
  as_ref : DexMethodRef;
  get_code : option IRCode;
  get_deobfuscated_name : string
}.

Definition set_code (m : DexMethod) (code : IRCode) : DexMethod :=
  {| as_ref := as_ref m; get_code := Some code;
     get_deobfuscated_name := get_deobfuscated_name m |}.

(** [p->...] on a pointer that may be null. *)
Definition deref {A} (p : option A) : Outcome A :=
  match p with
  | Some a => Ok a
  | None => NullDereference
  end.

(** The minimum-SDK API surface ([api::AndroidSDK]). *)
Record AndroidSDK := mkAndroidSDK {
  sdk_has_method : DexMethodRef → bool
}.

(** The configuration members of the pass object. *)
Record ResolveRefsPass := mkPass {
  m_refine_to_external : bool;
  m_desuperify : bool;
  m_specialize_rtype : bool;
  m_excluded_externals : list string;
  m_min_sdk_api : option AndroidSDK
}.

(** The metrics sink of the [PassManager]: the [incr_metric] calls it
    received, latest first. *)
Abbreviation PassManager := (list (string * N)).

Definition incr_metric (mgr : PassManager) (key : string) (value : N) : PassManager :=
  (key, value) :: mgr.

(** Modelled from the spec: [opcode_to_search] of [Resolver.h], which is not
    part of this translation unit; an invoke is resolved
    "per dispatch kind (virtual, super, interface, static, direct)". *)
Definition opcode_to_search (insn : IRInstruction) : MethodSearch :=
  match insn_opcode insn with
  | OPCODE_INVOKE_DIRECT => MS_Direct
  | OPCODE_INVOKE_STATIC => MS_Static
  | OPCODE_INVOKE_VIRTUAL => MS_Virtual
  | OPCODE_INVOKE_SUPER => MS_Super
  | OPCODE_INVOKE_INTERFACE => MS_Interface
  | _ => MS_Any
  end.

(** ** The collaborators of the pass

    Everything the pass calls that is defined elsewhere. The class store is
    handed to every query that walks the hierarchy or reads access flags,
    since [set_public] changes it while the pass runs. *)
Class Collaborators := {
  (** [Resolver.h] *)
  resolve_method :
    ClassStore → DexMethodRef → MethodSearch → DexMethodRef → option DexMethodRef;
  resolve_method_in :
    ClassStore → option DexClass → string → string → MethodSearch →
    option DexMethodRef;
  resolve_method_ref :
    ClassStore → DexClass → string → string → MethodSearch → option DexMethodRef;
  resolve_field : ClassStore → DexFieldRef → FieldSearch → option DexFieldRef;
  (** [type::can_access], [show], [api::is_support_lib_type] *)
  can_access : ClassStore → DexMethodRef → DexMethodRef → bool;
  show : DexMethodRef → string;
  is_support_lib_type : DexType → bool;
  (** [TypeInference.h]: the reference domain and the environments
      [inference.run(method)] leaves for the instructions of the body,
      keyed by their position *)
  DexTypeDomain : Type;
  DexTypeDomain_bottom : DexTypeDomain;
  TypeEnvironment : Type;
  get_dex_type : TypeEnvironment → reg_t → option DexType;
  get_type_domain : TypeEnvironment → reg_t → DexTypeDomain;
  get_type_environments :
    ClassStore → DexMethodRef → IRCode → nat → option TypeEnvironment;
  (** [SpecializeRtype.h] *)
  RtypeCandidates : Type;
  RtypeCandidates_empty : RtypeCandidates;
  RtypeCandidates_merge : RtypeCandidates → RtypeCandidates → RtypeCandidates;
  collect_inferred_rtype :
    RtypeCandidates → DexMethodRef → DexTypeDomain → DexTypeDomain →
    RtypeCandidates * DexTypeDomain;
  collect_specializable_rtype :
    RtypeCandidates → DexMethodRef → DexTypeDomain → RtypeCandidates;
  candidates_size : RtypeCandidates → N;
  RtypeSpecialization : Type;
  make_RtypeSpecialization : RtypeCandidates → RtypeSpecialization;
  specialize_rtypes :
    RtypeSpecialization → ClassStore * list DexMethod →
    RtypeSpecialization * (ClassStore * list DexMethod);
  print_stats : RtypeSpecialization → PassManager → PassManager
}.

Module impl.
Section impl.
Context {collab : Collaborators}.

Record RefStats := mkRefStats {
  num_mref_resolved : N;
  num_fref_resolved : N;
  num_invoke_virtual_refined : N;
  num_invoke_interface_replaced : N;
  num_invoke_super_removed : N;
  rtype_candidates : RtypeCandidates
}.

(** A default-constructed [RefStats]. *)
Definition RefStats_init : RefStats :=
  mkRefStats 0 0 0 0 0 RtypeCandidates_empty.

Definition print (stats : RefStats) (mgr : PassManager) : PassManager :=
  let mgr := incr_metric mgr "method_refs_resolved" (num_mref_resolved stats) in
  let mgr := incr_metric mgr "field_refs_resolved" (num_fref_resolved stats) in
  let mgr := incr_metric mgr "num_invoke_virtual_refined"
               (num_invoke_virtual_refined stats) in
  let mgr := incr_metric mgr "num_invoke_interface_replaced"
               (num_invoke_interface_replaced stats) in
  let mgr := incr_metric mgr "num_invoke_super_removed"
               (num_invoke_super_removed stats) in
  incr_metric mgr "num_rtype_specialization_candidates"
    (candidates_size (rtype_candidates stats)).

(** [operator+=] *)
Definition RefStats_add (this that : RefStats) : RefStats :=
  {| num_mref_resolved :=
       size_t_add (num_mref_resolved this) (num_mref_resolved that);
     num_fref_resolved :=
       size_t_add (num_fref_resolved this) (num_fref_resolved that);
     num_invoke_virtual_refined :=
       size_t_add (num_invoke_virtual_refined this)
                  (num_invoke_virtual_refined that);
     num_invoke_interface_replaced :=
       size_t_add (num_invoke_interface_replaced this)
                  (num_invoke_interface_replaced that);
     num_invoke_super_removed :=
       size_t_add (num_invoke_super_removed this)
                  (num_invoke_super_removed that);
     rtype_candidates :=
       RtypeCandidates_merge (rtype_candidates this) (rtype_candidates that) |}.

Definition incr_num_mref_resolved (s : RefStats) : RefStats :=
  mkRefStats (size_t_incr (num_mref_resolved s)) (num_fref_resolved s)
    (num_invoke_virtual_refined s) (num_invoke_interface_replaced s)
    (num_invoke_super_removed s) (rtype_candidates s).

Definition incr_num_fref_resolved (s : RefStats) : RefStats :=
  mkRefStats (num_mref_resolved s) (size_t_incr (num_fref_resolved s))
    (num_invoke_virtual_refined s) (num_invoke_interface_replaced s)
    (num_invoke_super_removed s) (rtype_candidates s).

Definition incr_num_invoke_virtual_refined (s : RefStats) : RefStats :=
  mkRefStats (num_mref_resolved s) (num_fref_resolved s)
    (size_t_incr (num_invoke_virtual_refined s))
    (num_invoke_interface_replaced s)
    (num_invoke_super_removed s) (rtype_candidates s).

Definition incr_num_invoke_interface_replaced (s : RefStats) : RefStats :=
  mkRefStats (num_mref_resolved s) (num_fref_resolved s)
    (num_invoke_virtual_refined s)
    (size_t_incr (num_invoke_interface_replaced s))
    (num_invoke_super_removed s) (rtype_candidates s).

Definition incr_num_invoke_super_removed (s : RefStats) : RefStats :=
  mkRefStats (num_mref_resolved s) (num_fref_resolved s)
    (num_invoke_virtual_refined s) (num_invoke_interface_replaced s)
    (size_t_incr (num_invoke_super_removed s)) (rtype_candidates s).

Definition set_rtype_candidates (s : RefStats) (c : RtypeCandidates) : RefStats :=
  mkRefStats (num_mref_resolved s) (num_fref_resolved s)
    (num_invoke_virtual_refined s) (num_invoke_interface_replaced s)
    (num_invoke_super_removed s) c.

Definition resolve_field_refs (cs : ClassStore) (insn : IRInstruction)
    (field_search : FieldSearch) (stats : RefStats)
    : Outcome (ClassStore * IRInstruction * RefStats) :=
  fref ← get_field insn;
  if fref_is_def fref then Ok (cs, insn, stats)
  else
    match resolve_field cs fref field_search with
    | Some real_ref =>
        if negb (fref_is_external real_ref) && negb (bool_decide (real_ref = fref))
        then
          let insn := set_field insn real_ref in
          let stats := incr_num_fref_resolved stats in
          match type_class cs (fref_class real_ref) with
          | None => AssertionFailure "cls != nullptr"
          | Some cls =>
              if negb (is_public cls) then
                if cls_is_external cls then Ok (cs, insn, stats)
                else Ok (set_public cs cls, insn, stats)
              else Ok (cs, insn, stats)
          end
        else Ok (cs, insn, stats)
    | None => Ok (cs, insn, stats)
    end.

Definition try_desuperify (cs : ClassStore) (caller : DexMethodRef)
    (insn : IRInstruction) (stats : RefStats)
    : Outcome (IRInstruction * RefStats) :=
  if negb (opcode.is_invoke_super (insn_opcode insn)) then Ok (insn, stats)
  else
    match type_class cs (mref_class caller) with
    | None => Ok (insn, stats)
    | Some cls =>
        (* Skip if the callee is an interface default method (037). *)
        mref ← get_method insn;
        match type_class cs (mref_class mref) with
        | None => Ok (insn, stats)
        | Some callee_cls =>
            if is_interface callee_cls then Ok (insn, stats)
            else
              (* resolve_method_ref will start its search in the superclass
                 of :cls. *)
              match resolve_method_ref cs cls (mref_name mref)
                      (mref_proto mref) MS_Virtual with
              | None => Ok (insn, stats)
              | Some callee =>
                  (* External methods may not always be final across
                     runtime versions *)
                  if mref_is_external callee || negb (is_final callee)
                  then Ok (insn, stats)
                  else Ok (set_opcode insn OPCODE_INVOKE_VIRTUAL,
                           incr_num_invoke_super_removed stats)
              end
        end
    end.

Fixpoint is_excluded_external (excluded_externals : list string)
    (name : string) : bool :=
  match excluded_externals with
  | [] => false
  | excluded :: rest =>
      if String.prefix excluded name then true
      else is_excluded_external rest name
  end.

Definition get_inferred_method_def (cs : ClassStore) (caller : DexMethodRef)
    (excluded_externals : list string) (is_support_lib : bool)
    (callee : DexMethodRef) (inferred_type : DexType) : option DexMethodRef :=
  let inferred_cls := type_class cs inferred_type in
  match resolve_method_in cs inferred_cls (mref_name callee)
          (mref_proto callee) MS_Virtual with
  | None => None
  | Some resolved =>
      (* 1. If we cannot resolve the callee based on the inferred_cls, we
         bail. *)
      if negb (mref_is_def resolved) then None
      else
        let resolved_cls := type_class cs (mref_class resolved) in
        let is_external :=
          match resolved_cls with
          | Some c => cls_is_external c
          | None => false
          end in
        (* 2. If the resolved target is an excluded external, we bail. *)
        if is_external && is_excluded_external excluded_externals (show resolved)
        then None
        (* 3. Accessibility check. *)
        else if negb (can_access cs caller resolved) then None
        else Some resolved
  end.

End impl.
End impl.

Import impl.

(** ** The member functions of [ResolveRefsPass] *)

Section pass.
Context {collab : Collaborators}.

(** The [else if] of the external gate: it reads [m_min_sdk_api] only for
    an external target. *)
Definition missing_in_min_sdk (this : ResolveRefsPass) (is_external : bool)
    (m : DexMethodRef) : Outcome bool :=
  if is_external then
    api ← deref (m_min_sdk_api this);
    Ok (negb (sdk_has_method api m))
  else Ok false.

Definition resolve_method_refs (this : ResolveRefsPass) (cs : ClassStore)
    (caller : DexMethodRef) (insn : IRInstruction) (stats : RefStats)
    : Outcome (ClassStore * IRInstruction * RefStats) :=
  if negb (has_method insn) then AssertionFailure "insn->has_method()"
  else
    mref ← get_method insn;
    match resolve_method cs mref (opcode_to_search insn) caller with
    | None => Ok (cs, insn, stats)
    | Some mdef =>
        if bool_decide (mdef = mref) then Ok (cs, insn, stats)
        (* Handle external refs. *)
        else if negb (m_refine_to_external this) && mref_is_external mdef
        then Ok (cs, insn, stats)
        else
          missing ← missing_in_min_sdk this (mref_is_external mdef) mdef;
          if (missing : bool) then Ok (cs, insn, stats)
          else
            let cls := type_class cs (mref_class mdef) in
            (* Bail out if the def is non public external *)
            if match cls with
               | Some c => cls_is_external c && negb (is_public c)
               | None => false
               end
            then Ok (cs, insn, stats)
            else
              (* redex_assert(cls != nullptr || !cls->is_external());
                 is_public(cls) *)
              c ← deref cls;
              let cs := if negb (is_public c) then set_public cs c else cs in
              Ok (cs, set_method insn mdef, incr_num_mref_resolved stats)
    end.

(** The [switch] of [resolve_refs]. *)
Definition resolve_refs_insn (this : ResolveRefsPass) (cs : ClassStore)
    (method : DexMethodRef) (insn : IRInstruction) (stats : RefStats)
    : Outcome (ClassStore * IRInstruction * RefStats) :=
  match insn_opcode insn with
  | OPCODE_INVOKE_VIRTUAL
  | OPCODE_INVOKE_SUPER
  | OPCODE_INVOKE_INTERFACE
  | OPCODE_INVOKE_STATIC =>
      resolve_method_refs this cs method insn stats
  | OPCODE_SGET | OPCODE_SGET_WIDE | OPCODE_SGET_OBJECT | OPCODE_SGET_BOOLEAN
  | OPCODE_SGET_BYTE | OPCODE_SGET_CHAR | OPCODE_SGET_SHORT
  | OPCODE_SPUT | OPCODE_SPUT_WIDE | OPCODE_SPUT_OBJECT | OPCODE_SPUT_BOOLEAN
  | OPCODE_SPUT_BYTE | OPCODE_SPUT_CHAR | OPCODE_SPUT_SHORT =>
      resolve_field_refs cs insn FS_Static stats
  | OPCODE_IGET | OPCODE_IGET_WIDE | OPCODE_IGET_OBJECT | OPCODE_IGET_BOOLEAN
  | OPCODE_IGET_BYTE | OPCODE_IGET_CHAR | OPCODE_IGET_SHORT
  | OPCODE_IPUT | OPCODE_IPUT_WIDE | OPCODE_IPUT_OBJECT | OPCODE_IPUT_BOOLEAN
  | OPCODE_IPUT_BYTE | OPCODE_IPUT_CHAR | OPCODE_IPUT_SHORT =>
      resolve_field_refs cs insn FS_Instance stats
  | _ => Ok (cs, insn, stats)
  end.

(** The [for] loop of [resolve_refs] over the instructions of the body;
    the instructions already visited come back in place. *)
Fixpoint resolve_refs_loop (this : ResolveRefsPass) (cs : ClassStore)
    (method : DexMethodRef) (code : IRCode) (stats : RefStats)
    : Outcome (ClassStore * IRCode * RefStats) :=
  match code with
  | [] => Ok (cs, [], stats)
  | insn :: rest =>
      '(cs, insn, stats) ← resolve_refs_insn this cs method insn stats;
      '(cs, rest, stats) ← resolve_refs_loop this cs method rest stats;
      Ok (cs, insn :: rest, stats)
  end.

Definition resolve_refs (this : ResolveRefsPass) (cs : ClassStore)
    (method : option DexMethod)
    : Outcome (ClassStore * option DexMethod * RefStats) :=
  let stats := RefStats_init in
  match method with
  | None => Ok (cs, None, stats)
  | Some m =>
      match get_code m with
      | None => Ok (cs, Some m, stats)
      | Some code =>
          '(cs, code, stats) ← resolve_refs_loop this cs (as_ref m) code stats;
          Ok (cs, Some (set_code m code), stats)
      end
  end.

(** [envs.at(insn)] *)
Definition envs_at (env : option TypeEnvironment) : Outcome TypeEnvironment :=
  match env with
  | Some e => Ok e
  | None => OutOfRange
  end.

(** The body of the [for] loop of [refine_virtual_callsites]; [env] is the
    entry of [envs] for the instruction, if there is one. *)
Definition refine_virtual_callsites_insn (this : ResolveRefsPass)
    (cs : ClassStore) (method : DexMethodRef) (env : option TypeEnvironment)
    (is_support_lib desuperify specialize_rtype : bool)
    (insn : IRInstruction) (stats : RefStats) (rtype_domain : DexTypeDomain)
    : Outcome (IRInstruction * RefStats * DexTypeDomain) :=
  '(insn, stats) ←
    (if desuperify then try_desuperify cs method insn stats
     else Ok (insn, stats));
  let opcode := insn_opcode insn in
  if specialize_rtype && opcode.is_return_object opcode then
    env ← envs_at env;
    r ← src insn 0;
    let inferred_rtype := get_type_domain env r in
    let '(candidates, rtype_domain) :=
      collect_inferred_rtype (rtype_candidates stats) method inferred_rtype
        rtype_domain in
    Ok (insn, set_rtype_candidates stats candidates, rtype_domain)
  else if negb (opcode.is_invoke_virtual opcode) &&
          negb (opcode.is_invoke_interface opcode)
  then Ok (insn, stats, rtype_domain)
  else
    mref ← get_method insn;
    match resolve_method cs mref (opcode_to_search insn) method with
    | None => Ok (insn, stats, rtype_domain)
    | Some callee =>
        this_reg ← src insn 0;
        env ← envs_at env;
        match get_dex_type env this_reg with
        | None =>
            (* Unsuccessful inference. *)
            Ok (insn, stats, rtype_domain)
        | Some dex_type =>
            (* replace it with the actual implementation if any provided. *)
            match get_inferred_method_def cs method (m_excluded_externals this)
                    is_support_lib callee dex_type with
            | None => Ok (insn, stats, rtype_domain)
            | Some def_meth =>
                match type_class cs (mref_class def_meth) with
                | None => Ok (insn, stats, rtype_domain)
                | Some def_cls =>
                    if bool_decide (mref = def_meth)
                    then Ok (insn, stats, rtype_domain)
                    (* Stop if the resolve_to_external config is False. *)
                    else if negb (m_refine_to_external this) &&
                            cls_is_external def_cls
                    then Ok (insn, stats, rtype_domain)
                    else
                      missing ← missing_in_min_sdk this
                                  (cls_is_external def_cls) def_meth;
                      if (missing : bool) then Ok (insn, stats, rtype_domain)
                      else
                        let insn := set_method insn def_meth in
                        if opcode.is_invoke_interface opcode &&
                           negb (is_interface def_cls)
                        then Ok (set_opcode insn OPCODE_INVOKE_VIRTUAL,
                                 incr_num_invoke_interface_replaced stats,
                                 rtype_domain)
                        else Ok (insn, incr_num_invoke_virtual_refined stats,
                                 rtype_domain)
                end
            end
        end
    end.

(** The [for] loop of [refine_virtual_callsites]: [i] is the position of
    the first instruction of [code] in the body, [envs] the environments
    computed before the loop. *)
Fixpoint refine_virtual_callsites_loop (this : ResolveRefsPass)
    (cs : ClassStore) (method : DexMethodRef)
    (envs : nat → option TypeEnvironment)
    (is_support_lib desuperify specialize_rtype : bool)
    (i : nat) (code : IRCode) (stats : RefStats) (rtype_domain : DexTypeDomain)
    : Outcome (IRCode * RefStats * DexTypeDomain) :=
  match code with
  | [] => Ok ([], stats, rtype_domain)
  | insn :: rest =>
      '(insn, stats, rtype_domain) ←
        refine_virtual_callsites_insn this cs method (envs i) is_support_lib
          desuperify specialize_rtype insn stats rtype_domain;
      '(rest, stats, rtype_domain) ←
        refine_virtual_callsites_loop this cs method envs is_support_lib
          desuperify specialize_rtype (S i) rest stats rtype_domain;
      Ok (insn :: rest, stats, rtype_domain)
  end.

Definition refine_virtual_callsites (this : ResolveRefsPass)
    (cs : ClassStore) (method : option DexMethod)
    (desuperify specialize_rtype : bool)
    : Outcome (option DexMethod * RefStats) :=
  let stats := RefStats_init in
  match method with
  | None => Ok (None, stats)
  | Some m =>
      match get_code m with
      | None => Ok (Some m, stats)
      | Some code =>
          let envs := get_type_environments cs (as_ref m) code in
          let is_support_lib := is_support_lib_type (mref_class (as_ref m)) in
          let rtype_domain := DexTypeDomain_bottom in
          '(code, stats, rtype_domain) ←
            refine_virtual_callsites_loop this cs (as_ref m) envs
              is_support_lib desuperify specialize_rtype 0%nat code stats
              rtype_domain;
          Ok (Some (set_code m code),
              set_rtype_candidates stats
                (collect_specializable_rtype (rtype_candidates stats)
                   (as_ref m) rtype_domain))
      end
  end.

(** [walk::parallel::methods<RefStats>(scope, f)], one method after the
    other in the order of the scope: every method of the scope is handed
    to [f] once, and the [RefStats] it returns are summed with
    [operator+=]. *)
Fixpoint walk_methods
    (f : ClassStore → DexMethod → Outcome (ClassStore * option DexMethod * RefStats))
    (cs : ClassStore) (scope : list DexMethod) (acc : RefStats)
    : Outcome (ClassStore * list DexMethod * RefStats) :=
  match scope with
  | [] => Ok (cs, [], acc)
  | m :: rest =>
      '(cs, m', local_stats) ← f cs m;
      '(cs, rest, acc) ← walk_methods f cs rest (RefStats_add acc local_stats);
      Ok (cs, default m m' :: rest, acc)
  end.

(** The first lambda of [run_pass]. *)
Definition run_pass_first (this : ResolveRefsPass) (cs : ClassStore)
    (method : DexMethod)
    : Outcome (ClassStore * option DexMethod * RefStats) :=
  '(cs, method, local_stats) ← resolve_refs this cs (Some method);
  '(method, refined) ←
    refine_virtual_callsites this cs method (m_desuperify this)
      (m_specialize_rtype this);
  Ok (cs, method, RefStats_add local_stats refined).

(** The second lambda of [run_pass]. *)
Definition run_pass_second (this : ResolveRefsPass) (cs : ClassStore)
    (method : DexMethod)
    : Outcome (ClassStore * option DexMethod * RefStats) :=
  '(method, local_stats) ←
    refine_virtual_callsites this cs (Some method)
      false (* desuperfy *) false (* specialize_rtype *);
  Ok (cs, method, local_stats).

Definition run_pass (this : ResolveRefsPass)
    (scope : ClassStore * list DexMethod) (mgr : PassManager)
    : Outcome (ClassStore * list DexMethod * PassManager) :=
  if negb (bool_decide (is_Some (m_min_sdk_api this)))
  then AssertionFailure "m_min_sdk_api"
  else
    '(cs, methods, stats) ←
      walk_methods (run_pass_first this) scope.1 scope.2 RefStats_init;
    let mgr := print stats mgr in
    if negb (m_specialize_rtype this) then Ok (cs, methods, mgr)
    else
      let rs := make_RtypeSpecialization (rtype_candidates stats) in
      let '(rs, (cs, methods)) := specialize_rtypes rs (cs, methods) in
      let mgr := print_stats rs mgr in
      (* Resolve virtual method refs again based on the new rtypes. But
         further rtypes collection is disabled. *)
      '(cs, methods, stats) ←
        walk_methods (run_pass_second this) cs methods RefStats_init;
      Ok (cs, methods, print stats mgr).

End pass.

(** ** The completion protocol of [IRTypeChecker] *)

Module IRTypeChecker.

Record t := mk {
  m_dex_method : DexMethod;
  m_validate_access : bool;
  m_complete : bool;
  m_verify_moves : bool;
  m_check_no_overwrite_this : bool;
  m_good : bool;
  m_what : string
}.

Definition verify_moves (c : t) : t :=
  if negb (m_complete c) then
    (* We can only set this parameter before running the type checker. *)
    mk (m_dex_method c) (m_validate_access c) (m_complete c) true
       (m_check_no_overwrite_this c) (m_good c) (m_what c)
  else c.

Definition check_no_overwrite_this (c : t) : t :=
  if negb (m_complete c) then
    (* We can only set this parameter before running the type checker. *)
    mk (m_dex_method c) (m_validate_access c) (m_complete c)
       (m_verify_moves c) true (m_good c) (m_what c)
  else c.

Definition newline : string := String (Ascii.ascii_of_nat 10) EmptyString.

(** The text [always_assert_log] formats when [m_complete] is false. *)
Definition did_not_run (c : t) : string :=
  "The type checker did not run on method "
    ++ get_deobfuscated_name (m_dex_method c) ++ "." ++ newline.

Definition check_completion (c : t) : Outcome unit :=
  if m_complete c then Ok () else AssertionFailure (did_not_run c).

Definition good (c : t) : Outcome bool :=
  _ ← check_completion c; Ok (m_good c).

Definition fail (c : t) : Outcome bool :=
  _ ← check_completion c; Ok (negb (m_good c)).

Definition what (c : t) : Outcome string :=
  _ ← check_completion c; Ok (m_what c).

(** Modelled from the spec: the constructor of [IRTypeChecker.cpp], which
    is not among the sources. A new checker is pending; [what()] is
    "a legible description of the type error, or "OK" otherwise". *)
Definition new (dex_method : DexMethod) (validate_access : bool) : t :=
  mk dex_method validate_access false false false true "OK".

(** Modelled from the spec: the sweep of [run()], "then sweeps
    instructions for errors"; "on error, the checker stops and records the
    first message; no further errors are produced". [check_instruction]
    gives the description of the type error of an instruction, if it has
    one. *)
Fixpoint first_error (check_instruction : t → IRInstruction → option string)
    (c : t) (code : IRCode) : option string :=
  match code with
  | [] => None
  | insn :: rest =>
      match check_instruction c insn with
      | Some msg => Some msg
      | None => first_error check_instruction c rest
      end
  end.

(** Modelled from the spec: [run()] of [IRTypeChecker.cpp], which is not
    among the sources: "idempotent; runs fixpoint, then sweeps
    instructions for errors. Transitions the checker from pending to
    complete." *)
Definition run (check_instruction : t → IRInstruction → option string)
    (c : t) : t :=
  if m_complete c then c
  else
    match first_error check_instruction c
            (default [] (get_code (m_dex_method c))) with
    | Some msg =>
        mk (m_dex_method c) (m_validate_access c) true (m_verify_moves c)
           (m_check_no_overwrite_this c) false msg
    | None =>
        mk (m_dex_method c) (m_validate_access c) true (m_verify_moves c)
           (m_check_no_overwrite_this c) (m_good c) (m_what c)
    end.

(** The checkers a client can hold before [run()]: a new one, configured
    by any number of calls of the two setters. *)
Inductive pending : t → Prop :=
  | pending_new dex_method validate_access :
      pending (new dex_method validate_access)
  | pending_verify_moves c :
      pending c → pending (verify_moves c)
  | pending_check_no_overwrite_this c :
      pending c → pending (check_no_overwrite_this c).

End IRTypeChecker.

(** ** A small program to run the pass on *)

Module TestScope.

(** Collaborators given by lookup functions over a fixed hierarchy; type
    inference knows the same class, [receiver], for every register. *)
Definition table_collaborators
    (rm : DexMethodRef → MethodSearch → option DexMethodRef)
    (rmi : option DexClass → string → string → option DexMethodRef)
    (rmr : DexClass → string → string → option DexMethodRef)
    (rf : DexFieldRef → FieldSearch → option DexFieldRef)
    (access : DexMethodRef → DexMethodRef → bool)
    (receiver : option DexType) : Collaborators :=
  {| resolve_method := λ _ mref search _, rm mref search;
     resolve_method_in := λ _ cls name proto _, rmi cls name proto;
     resolve_method_ref := λ _ cls name proto _, rmr cls name proto;
     resolve_field := λ _ fref search, rf fref search;
     can_access := λ _ caller callee, access caller callee;
     show := λ m, mref_class m ++ "." ++ mref_name m ++ ":" ++ mref_proto m;
     is_support_lib_type := λ _, false;
     DexTypeDomain := option DexType;
     DexTypeDomain_bottom := None;
     TypeEnvironment := option DexType;
     get_dex_type := λ env _, env;
     get_type_domain := λ env _, env;
     get_type_environments := λ _ _ _ _, Some receiver;
     RtypeCandidates := list (DexMethodRef * DexType);
     RtypeCandidates_empty := [];
     RtypeCandidates_merge := λ this that, app this that;
     collect_inferred_rtype := λ c _ inferred _, (c, inferred);
     collect_specializable_rtype := λ c m rtype_domain,
       match rtype_domain with
       | Some t => (m, t) :: c
       | None => c
       end;
     candidates_size := λ c, N.of_nat (length c);
     RtypeSpecialization := list (DexMethodRef * DexType);
     make_RtypeSpecialization := λ c, c;
     specialize_rtypes := λ rs scope, (rs, scope);
     print_stats := λ rs mgr,
       incr_metric mgr "num_rtype_specialized" (N.of_nat (length rs)) |}.

Definition internal_public := mkClassInfo false true false.
Definition internal_hidden := mkClassInfo false false false.
Definition internal_interface := mkClassInfo false true true.
Definition external_public := mkClassInfo true true false.
Definition external_hidden := mkClassInfo true false false.

Definition classes : ClassStore :=
  <["LBase;" := internal_public]>
  (<["LDerived;" := internal_hidden]>
  (<["LIface;" := internal_interface]>
  (<["LCaller;" := internal_public]>
  (<["Landroid/os/Build;" := external_public]>
  (<["Landroid/Hidden;" := external_hidden]> ∅))))).

Definition caller := mkMethod "LCaller;" "foo" "(LBase;)V" true false false.

(** [LBase;.m:()V] is final; [LDerived;.m:()V] and [LIface;.m:()V] are
    other definitions, [LSub;.m:()V] is a reference without definition. *)
Definition Base_m := mkMethod "LBase;" "m" "()V" true false true.
Definition Derived_m := mkMethod "LDerived;" "m" "()V" true false false.
Definition Iface_m := mkMethod "LIface;" "m" "()V" true false false.
Definition Sub_m := mkMethod "LSub;" "m" "()V" false false false.
Definition Build_get := mkMethod "Landroid/os/Build;" "get" "()V" true true false.
Definition Build_ref := mkMethod "LMyBuild;" "get" "()V" false false false.
Definition Hidden_get := mkMethod "Landroid/Hidden;" "get" "()V" true true false.
Definition Ghost_m := mkMethod "LGhost;" "m" "()V" true false false.

Definition Base_f := mkField "LBase;" "f" "I" true false.
Definition Derived_f := mkField "LDerived;" "f" "I" true false.
Definition Sub_f := mkField "LSub;" "f" "I" false false.
Definition Hidden_f := mkField "Landroid/Hidden;" "f" "I" true false.
Definition Ghost_f := mkField "LGhost;" "f" "I" true false.

Definition invoke (op : IROpcode) (m : DexMethodRef) : IRInstruction :=
  mkInsn op [0] (MethodRef m).
Definition field_op (op : IROpcode) (f : DexFieldRef) : IRInstruction :=
  mkInsn op [0] (FieldRef f).

Definition no_method : DexMethodRef → MethodSearch → option DexMethodRef :=
  λ _ _, None.
Definition no_method_in : option DexClass → string → string → option DexMethodRef :=
  λ _ _ _, None.
Definition no_method_ref : DexClass → string → string → option DexMethodRef :=
  λ _ _ _, None.
Definition no_field : DexFieldRef → FieldSearch → option DexFieldRef :=
  λ _ _, None.
Definition all_access : DexMethodRef → DexMethodRef → bool := λ _ _, true.

(** Every method reference resolves to [target], whatever the search. *)
Definition to_method (target : DexMethodRef)
    : DexMethodRef → MethodSearch → option DexMethodRef :=
  λ _ _, Some target.
Definition to_method_in (target : DexMethodRef)
    : option DexClass → string → string → option DexMethodRef :=
  λ _ _ _, Some target.
Definition to_method_ref (target : DexMethodRef)
    : DexClass → string → string → option DexMethodRef :=
  λ _ _ _, Some target.
Definition to_field (target : DexFieldRef)
    : DexFieldRef → FieldSearch → option DexFieldRef :=
  λ _ _, Some target.

Definition sdk_all := mkAndroidSDK (λ _, true).
Definition sdk_none := mkAndroidSDK (λ _, false).

Definition pass (refine_to_external : bool) (excluded : list string)
    (sdk : AndroidSDK) : ResolveRefsPass :=
  mkPass refine_to_external true true excluded (Some sdk).

(** A hierarchy in which the superclass of the caller defines the final
    [LBase;.m:()V]. *)
Definition final_super : Collaborators :=
  table_collaborators no_method no_method_in (to_method_ref Base_m)
    no_field all_access None.

(** A hierarchy in which every reference resolves to [LGhost;.m:()V], a
    definition of a class that is not loaded. *)
Definition ghost_target : Collaborators :=
  table_collaborators (to_method Ghost_m) no_method_in no_method_ref
    no_field all_access None.

(** A hierarchy in which every method reference resolves to the external
    [Landroid/os/Build;.get:()V], for the plain resolution and from the
    inferred class of the receiver. *)
Definition external_target : Collaborators :=
  table_collaborators (to_method Build_get) (to_method_in Build_get)
    no_method_ref no_field all_access (Some "Landroid/os/Build;").

(** A hierarchy in which a call through [LIface;.m:()V] has a receiver
    known to be an [LBase;], whose [m] is [LBase;.m:()V]. *)
Definition interface_to_class : Collaborators :=
  table_collaborators (to_method Iface_m) (to_method_in Base_m)
    no_method_ref no_field all_access (Some "LBase;").

(** A hierarchy in which a call of [LBase;.m:()V] has a receiver known to
    be an [LDerived;], whose [m] is [LDerived;.m:()V]. *)
Definition base_to_derived : Collaborators :=
  table_collaborators (to_method Base_m) (to_method_in Derived_m)
    no_method_ref no_field all_access (Some "LDerived;").

(** Hierarchies in which every field reference resolves to
    [LDerived;.f:I], of a class of the program that is not public, and to
    [Landroid/Hidden;.f:I], a field that is not external of an external
    class that is not public. *)
Definition derived_field : Collaborators :=
  table_collaborators no_method no_method_in no_method_ref
    (to_field Derived_f) all_access None.
Definition hidden_field : Collaborators :=
  table_collaborators no_method no_method_in no_method_ref
    (to_field Hidden_f) all_access None.

Definition direct_caller : DexMethod :=
  mkDexMethod caller (Some [invoke OPCODE_INVOKE_DIRECT Sub_m])
    "LCaller;.foo:(LBase;)V".


(** A method whose body calls [LBase;.m:()V] through [invoke-super], and
    a type checker that rejects [invoke-direct]. *)
Definition super_caller : DexMethod :=
  mkDexMethod caller (Some [invoke OPCODE_INVOKE_SUPER Base_m])
    "LCaller;.foo:(LBase;)V".

Definition no_invoke_direct (c : IRTypeChecker.t) (insn : IRInstruction)
    : option string :=
  match insn_opcode insn with
  | OPCODE_INVOKE_DIRECT => Some "invoke-direct is not expected"
  | _ => None
  end.



(** A hierarchy in which every method reference resolves to
    [LDerived;.m:()V], every field reference to [LDerived;.f:I], the
    superclass of the caller defines the final [LBase;.m:()V], and every
    receiver is known to be an [LDerived;]; and a method to run the pass
    on. *)
Definition program : Collaborators :=
  table_collaborators (to_method Derived_m) (to_method_in Derived_m)
    (to_method_ref Base_m) (to_field Derived_f) all_access
    (Some "LDerived;").

Definition body : IRCode :=
  [invoke OPCODE_INVOKE_STATIC Sub_m;
   field_op OPCODE_IGET Sub_f;
   invoke OPCODE_INVOKE_SUPER Base_m;
   invoke OPCODE_INVOKE_INTERFACE Iface_m;
   mkInsn OPCODE_RETURN_OBJECT [0] NoRef;
   invoke OPCODE_INVOKE_DIRECT Sub_m;
   field_op OPCODE_SGET Base_f].

Definition foo : DexMethod :=
  mkDexMethod caller (Some body) "LCaller;.foo:(LBase;)V".

(** A checker that has run and found a type error. *)
Definition failed_checker : IRTypeChecker.t :=
  IRTypeChecker.mk direct_caller false true false false false
    "invoke-direct is not expected".

End TestScope.

(** ** Conditions of the rewrites, as the source tests them *)

Section conditions.
Context {collab : Collaborators}.

(** What [try_desuperify] requires of an [invoke-super] of [mref] in
    [caller] before it rewrites the opcode. *)
Definition desuperify_conditions (cs : ClassStore) (caller mref : DexMethodRef)
    : Prop :=
  ∃ cls callee_cls callee,
    type_class cs (mref_class caller) = Some cls ∧
    type_class cs (mref_class mref) = Some callee_cls ∧
    is_interface callee_cls = false ∧
    resolve_method_ref cs cls (mref_name mref) (mref_proto mref) MS_Virtual
      = Some callee ∧
    mref_is_external callee = false ∧
    is_final callee = true.

(** The gate on external targets, shared by [resolve_method_refs] and
    [refine_virtual_callsites]: an external target needs
    [m_refine_to_external] and has to be in [m_min_sdk_api]. *)
Definition external_gate (this : ResolveRefsPass) (is_external : bool)
    (m : DexMethodRef) : Prop :=
  is_external = true →
  m_refine_to_external this = true ∧
  ∃ api, m_min_sdk_api this = Some api ∧ sdk_has_method api m = true.

(** What [refine_virtual_callsites] requires of a call site before it
    rewrites the method reference [mref] to [def_meth], a definition of
    class [def_cls], the external gate apart. *)
Definition refinement_conditions (this : ResolveRefsPass) (cs : ClassStore)
    (method : DexMethodRef) (env : option TypeEnvironment)
    (is_support_lib : bool) (insn : IRInstruction)
    (mref def_meth : DexMethodRef) (def_cls : DexClass) : Prop :=
  ∃ callee this_reg e dex_type,
    (insn_opcode insn = OPCODE_INVOKE_VIRTUAL ∨
     insn_opcode insn = OPCODE_INVOKE_INTERFACE) ∧
    get_method insn = Ok mref ∧
    resolve_method cs mref (opcode_to_search insn) method = Some callee ∧
    src insn 0 = Ok this_reg ∧
    env = Some e ∧
    get_dex_type e this_reg = Some dex_type ∧
    get_inferred_method_def cs method (m_excluded_externals this)
      is_support_lib callee dex_type = Some def_meth ∧
    type_class cs (mref_class def_meth) = Some def_cls ∧
    mref ≠ def_meth.

(** The rewrite that [refine_virtual_callsites] applies to a call site
    whose conditions hold. *)
Definition refined_insn (insn : IRInstruction) (def_meth : DexMethodRef)
    (def_cls : DexClass) : IRInstruction :=
  if opcode.is_invoke_interface (insn_opcode insn) && negb (is_interface def_cls)
  then set_opcode (set_method insn def_meth) OPCODE_INVOKE_VIRTUAL
  else set_method insn def_meth.

Definition refined_stats (insn : IRInstruction) (def_cls : DexClass)
    (stats : RefStats) : RefStats :=
  if opcode.is_invoke_interface (insn_opcode insn) && negb (is_interface def_cls)
  then incr_num_invoke_interface_replaced stats
  else incr_num_invoke_virtual_refined stats.

(** What [resolve_field_refs] requires before it rewrites the field
    reference [fref] to [real_ref]. *)
Definition field_conditions (cs : ClassStore) (field_search : FieldSearch)
    (fref real_ref : DexFieldRef) : Prop :=
  fref_is_def fref = false ∧
  resolve_field cs fref field_search = Some real_ref ∧
  fref_is_external real_ref = false ∧
  real_ref ≠ fref.


(** The case labels of the [switch] of [resolve_refs]. *)
Definition searched_as (op : IROpcode) : option FieldSearch :=
  match op with
  | OPCODE_SGET | OPCODE_SGET_WIDE | OPCODE_SGET_OBJECT | OPCODE_SGET_BOOLEAN
  | OPCODE_SGET_BYTE | OPCODE_SGET_CHAR | OPCODE_SGET_SHORT
  | OPCODE_SPUT | OPCODE_SPUT_WIDE | OPCODE_SPUT_OBJECT | OPCODE_SPUT_BOOLEAN
  | OPCODE_SPUT_BYTE | OPCODE_SPUT_CHAR | OPCODE_SPUT_SHORT => Some FS_Static
  | OPCODE_IGET | OPCODE_IGET_WIDE | OPCODE_IGET_OBJECT | OPCODE_IGET_BOOLEAN
  | OPCODE_IGET_BYTE | OPCODE_IGET_CHAR | OPCODE_IGET_SHORT
  | OPCODE_IPUT | OPCODE_IPUT_WIDE | OPCODE_IPUT_OBJECT | OPCODE_IPUT_BOOLEAN
  | OPCODE_IPUT_BYTE | OPCODE_IPUT_CHAR | OPCODE_IPUT_SHORT => Some FS_Instance
  | _ => None
  end.

End conditions.

(** ** What the pass may change, and what its counters count *)

Section accounting.
Context {collab : Collaborators}.

(** From [cs] to [cs'], no class is added or removed, and a class is either
    as it was or, if it is not external, made public. *)
Definition only_promotes (cs cs' : ClassStore) : Prop :=
  ∀ t,
    match cs !! t with
    | None => cs' !! t = None
    | Some ci =>
        cs' !! t = Some ci ∨
        (ci_external ci = false ∧ cs' !! t = Some (make_public ci))
    end.

(** The number of positions at which the instruction before and the
    instruction after are related by [P]. *)
Fixpoint count_pairs (P : IRInstruction → IRInstruction → bool)
    (code code' : IRCode) : nat :=
  match code, code' with
  | insn :: rest, insn' :: rest' =>
      (if P insn insn' then 1 else 0) + count_pairs P rest rest'
  | _, _ => 0
  end%nat.

Definition method_rewritten (insn insn' : IRInstruction) : bool :=
  match insn_ref insn, insn_ref insn' with
  | MethodRef m, MethodRef m' => bool_decide (m' ≠ m)
  | _, _ => false
  end.

Definition field_rewritten (insn insn' : IRInstruction) : bool :=
  match insn_ref insn, insn_ref insn' with
  | FieldRef f, FieldRef f' => bool_decide (f' ≠ f)
  | _, _ => false
  end.

Definition super_removed (insn insn' : IRInstruction) : bool :=
  opcode.is_invoke_super (insn_opcode insn) &&
  opcode.is_invoke_virtual (insn_opcode insn').

Definition interface_replaced (insn insn' : IRInstruction) : bool :=
  opcode.is_invoke_interface (insn_opcode insn) &&
  opcode.is_invoke_virtual (insn_opcode insn').

Definition virtual_refined (insn insn' : IRInstruction) : bool :=
  method_rewritten insn insn' && negb (interface_replaced insn insn').

(** What a rewritten call site refers to. *)
Definition refined_target (cs : ClassStore) (method : DexMethodRef)
    (insn' : IRInstruction) : Prop :=
  ∃ def_meth,
    get_method insn' = Ok def_meth ∧
    mref_is_def def_meth = true ∧
    can_access cs method def_meth = true ∧
    is_Some (type_class cs (mref_class def_meth)).

(** The pass with another minimum SDK. *)
Definition with_min_sdk_api (this : ResolveRefsPass) (api : option AndroidSDK)
    : ResolveRefsPass :=
  mkPass (m_refine_to_external this) (m_desuperify this)
    (m_specialize_rtype this) (m_excluded_externals this) api.

(** Every counter is a value of [size_t]. *)
Definition counters_in_range (stats : RefStats) : Prop :=
  num_mref_resolved stats < SIZE_MAX_plus_1 ∧
  num_fref_resolved stats < SIZE_MAX_plus_1 ∧
  num_invoke_virtual_refined stats < SIZE_MAX_plus_1 ∧
  num_invoke_interface_replaced stats < SIZE_MAX_plus_1 ∧
  num_invoke_super_removed stats < SIZE_MAX_plus_1.

(** The pass can read the minimum SDK whenever it needs it. *)
Definition min_sdk_available (this : ResolveRefsPass) : Prop :=
  m_refine_to_external this = false ∨ is_Some (m_min_sdk_api this).

(** Whatever the lookups find for [caller], in [cs] or in a class store
    that promotes it, is a member of a class that [cs] has. *)
Definition closed_hierarchy (cs : ClassStore) (caller : DexMethodRef) : Prop :=
  ∀ cs1,
    only_promotes cs cs1 →
    (∀ mref search mdef,
       resolve_method cs1 mref search caller = Some mdef →
       is_Some (cs !! mref_class mdef)) ∧
    (∀ fref search real_ref,
       resolve_field cs1 fref search = Some real_ref →
       is_Some (cs !! fref_class real_ref)).


(** A count as a [size_t]. *)
Definition size_t_of_nat (n : nat) : N := N.of_nat n mod SIZE_MAX_plus_1.

(** The five counters of a [RefStats]. *)
Definition counters (stats : RefStats) : N * N * N * N * N :=
  (num_mref_resolved stats, num_fref_resolved stats,
   num_invoke_virtual_refined stats, num_invoke_interface_replaced stats,
   num_invoke_super_removed stats).

(** What the accessors of [IRInstruction] assert, for the instructions the
    pass looks at: an invoke of kind virtual, super, interface or static has
    its method reference and, unless it is static, a receiver; a field
    access has its field reference; a [return-object] has its source. *)
Definition well_formed (insn : IRInstruction) : bool :=
  match insn_opcode insn with
  | OPCODE_INVOKE_STATIC => has_method insn
  | OPCODE_INVOKE_VIRTUAL | OPCODE_INVOKE_SUPER | OPCODE_INVOKE_INTERFACE =>
      has_method insn && bool_decide (insn_srcs insn ≠ [])
  | OPCODE_RETURN_OBJECT => bool_decide (insn_srcs insn ≠ [])
  | op =>
      match searched_as op, insn_ref insn with
      | Some _, FieldRef _ => true
      | Some _, _ => false
      | None, _ => true
      end
  end.




End accounting.

(** * Properties *)

(** ** [size_t] counters *)

Lemma size_t_incr_small n :
  n + 1 < SIZE_MAX_plus_1 → size_t_incr n = n + 1.
Proof. intros Hlt. unfold size_t_incr. by apply N.mod_small. Qed.

Lemma size_t_incr_neq n : size_t_incr n ≠ n.
Proof.
  unfold size_t_incr. intros Heq.
  assert (Hpos : SIZE_MAX_plus_1 ≠ 0) by done.
  pose proof (N.mod_upper_bound (n + 1) SIZE_MAX_plus_1 Hpos) as Hub.
  destruct (decide (n + 1 < SIZE_MAX_plus_1)) as [Hlt|Hge].
  - rewrite N.mod_small in Heq by done. lia.
  - assert (n + 1 = SIZE_MAX_plus_1) as Hmax by lia.
    rewrite Hmax, N.Div0.mod_same in Heq.
    unfold SIZE_MAX_plus_1 in Hmax. rewrite <- Heq in Hmax. done.
Qed.

(** ** Instructions *)

Lemma get_method_Ok insn mref :
  get_method insn = Ok mref ↔ insn_ref insn = MethodRef mref.
Proof. unfold get_method. destruct (insn_ref insn); split; congruence. Qed.

Lemma get_field_Ok insn fref :
  get_field insn = Ok fref ↔ insn_ref insn = FieldRef fref.
Proof. unfold get_field. destruct (insn_ref insn); split; congruence. Qed.

Lemma get_method_has_method insn mref :
  get_method insn = Ok mref → has_method insn = true.
Proof. rewrite get_method_Ok. unfold has_method. by intros ->. Qed.

Lemma set_method_neq insn mref mdef :
  get_method insn = Ok mref → mdef ≠ mref → set_method insn mdef ≠ insn.
Proof.
  rewrite get_method_Ok. intros Href Hne Heq.
  apply (f_equal insn_ref) in Heq. simpl in Heq. congruence.
Qed.

Lemma set_field_neq insn fref real_ref :
  get_field insn = Ok fref → real_ref ≠ fref → set_field insn real_ref ≠ insn.
Proof.
  rewrite get_field_Ok. intros Href Hne Heq.
  apply (f_equal insn_ref) in Heq. simpl in Heq. congruence.
Qed.

Lemma type_class_Some cs t cls :
  type_class cs t = Some cls ↔ ∃ ci, cs !! t = Some ci ∧ cls = mkDexClass t ci.
Proof.
  unfold type_class. destruct (cs !! t) as [ci|]; simpl; split.
  - intros [= <-]. by exists ci.
  - intros (ci' & [= <-] & ->). done.
  - done.
  - intros (ci' & [=] & _).
Qed.

(** After [set_public(cls)], [type_class] finds the class public, and
    external and interface as before. *)
Lemma type_class_set_public cs t cls :
  type_class cs t = Some cls →
  type_class (set_public cs cls) t
    = Some (mkDexClass t (make_public (cls_info cls))).
Proof.
  rewrite type_class_Some. intros (ci & Hci & ->).
  unfold type_class, set_public. simpl.
  by rewrite lookup_alter_eq, Hci.
Qed.

Section desuperify.
Context {collab : Collaborators}.

(** The outcome of [try_desuperify] on an [invoke-super], against its
    conditions. *)
Lemma try_desuperify_cases cs caller insn stats mref :
  insn_opcode insn = OPCODE_INVOKE_SUPER →
  get_method insn = Ok mref →
  ∃ insn' stats',
    try_desuperify cs caller insn stats = Ok (insn', stats') ∧
    (insn_opcode insn' = OPCODE_INVOKE_VIRTUAL
       ↔ desuperify_conditions cs caller mref) ∧
    (insn_opcode insn' = OPCODE_INVOKE_VIRTUAL →
       insn' = set_opcode insn OPCODE_INVOKE_VIRTUAL ∧
       stats' = incr_num_invoke_super_removed stats ∧
       num_invoke_super_removed stats'
         = size_t_incr (num_invoke_super_removed stats)) ∧
    (insn_opcode insn' ≠ OPCODE_INVOKE_VIRTUAL →
       insn' = insn ∧ stats' = stats).
Proof.
  intros Hop Hget. unfold try_desuperify, desuperify_conditions.
  rewrite Hop. simpl.
  assert (Hkeep : ∀ P : Prop, ¬ P →
    ∃ insn' stats', Ok (insn, stats) = Ok (insn', stats') ∧
      (insn_opcode insn' = OPCODE_INVOKE_VIRTUAL ↔ P) ∧
      (insn_opcode insn' = OPCODE_INVOKE_VIRTUAL →
         insn' = set_opcode insn OPCODE_INVOKE_VIRTUAL ∧
         stats' = incr_num_invoke_super_removed stats ∧
         num_invoke_super_removed stats'
           = size_t_incr (num_invoke_super_removed stats)) ∧
      (insn_opcode insn' ≠ OPCODE_INVOKE_VIRTUAL →
         insn' = insn ∧ stats' = stats)).
  { intros P HnP. exists insn, stats. rewrite Hop.
    split; [done|]. split; [split; [done | tauto]|]. split; done. }
  assert (Hno : ∀ Q : Prop, (Q → False) → ¬ Q) by (intros Q HQ; exact HQ).
  destruct (type_class cs (mref_class caller)) as [cls|] eqn:Hcls;
    [| apply Hkeep, Hno; intros (? & ? & ? & ? & ?); congruence].
  rewrite Hget. simpl.
  destruct (type_class cs (mref_class mref)) as [callee_cls|] eqn:Hcallee_cls;
    [| apply Hkeep, Hno; intros (? & ? & ? & ? & ? & ?); congruence].
  destruct (is_interface callee_cls) eqn:Hitf;
    [apply Hkeep, Hno; intros (? & ? & ? & ? & ? & ? & ?); congruence|].
  destruct (resolve_method_ref cs cls (mref_name mref) (mref_proto mref)
              MS_Virtual) as [callee|] eqn:Hres;
    [| apply Hkeep, Hno; intros (? & ? & ? & ? & ? & ? & ? & ?); congruence].
  destruct (mref_is_external callee) eqn:Hext; simpl;
    [apply Hkeep, Hno; intros (? & ? & ? & ? & ? & ? & ? & ? & ?); congruence|].
  destruct (is_final callee) eqn:Hfinal; simpl;
    [| apply Hkeep, Hno; intros (? & ? & ? & ? & ? & ? & ? & ? & ?); congruence].
  eexists _, _. split; [done|]. simpl.
  split; [split; [intros _; by exists cls, callee_cls, callee | done]|].
  split; [done | done].
Qed.

(** C3. For an [invoke-super] instruction, [try_desuperify] turns the
    opcode into [invoke-virtual] if and only if the class of the caller is
    defined, the class of the referenced callee is defined and is not an
    interface, and the callee found by the virtual search from the class
    of the caller is non-null, not external and final. When it does, the
    rest of the instruction is kept and [num_invoke_super_removed] goes up
    by one, alone among the counters; when it does not, instruction and
    statistics are unchanged. *)
Theorem try_desuperify_iff cs caller insn stats mref :
  insn_opcode insn = OPCODE_INVOKE_SUPER →
  get_method insn = Ok mref →
  ∃ insn' stats',
    try_desuperify cs caller insn stats = Ok (insn', stats') ∧
    (insn_opcode insn' = OPCODE_INVOKE_VIRTUAL
       ↔ desuperify_conditions cs caller mref) ∧
    (insn_opcode insn' = OPCODE_INVOKE_VIRTUAL →
       insn' = set_opcode insn OPCODE_INVOKE_VIRTUAL ∧
       stats' = incr_num_invoke_super_removed stats ∧
       num_invoke_super_removed stats'
         = size_t_incr (num_invoke_super_removed stats)) ∧
    (insn_opcode insn' ≠ OPCODE_INVOKE_VIRTUAL →
       insn' = insn ∧ stats' = stats).
Proof. apply try_desuperify_cases. Qed.

End desuperify.

Lemma try_desuperify_iff_witness :
  ∃ insn' stats',
    try_desuperify (collab := TestScope.final_super)
      TestScope.classes TestScope.caller
      (TestScope.invoke OPCODE_INVOKE_SUPER TestScope.Base_m) RefStats_init
      = Ok (insn', stats') ∧
    (insn_opcode insn' = OPCODE_INVOKE_VIRTUAL
       ↔ desuperify_conditions (collab := TestScope.final_super)
           TestScope.classes TestScope.caller TestScope.Base_m).
Proof.
  destruct (try_desuperify_iff (collab := TestScope.final_super)
              TestScope.classes TestScope.caller
              (TestScope.invoke OPCODE_INVOKE_SUPER TestScope.Base_m)
              RefStats_init TestScope.Base_m eq_refl eq_refl)
    as (insn' & stats' & Hrun & Hiff & _).
  exists insn', stats'. exact (conj Hrun Hiff).
Defined.

(** ** Plain method reference resolution *)

Section method_refs.
Context {collab : Collaborators}.

Lemma missing_in_min_sdk_internal this m :
  missing_in_min_sdk this false m = Ok false.
Proof. done. Qed.

Lemma missing_in_min_sdk_external this api m :
  m_min_sdk_api this = Some api →
  missing_in_min_sdk this true m = Ok (negb (sdk_has_method api m)).
Proof. unfold missing_in_min_sdk. by intros ->. Qed.

Lemma missing_in_min_sdk_gate this ext m :
  missing_in_min_sdk this ext m = Ok false →
  (negb (m_refine_to_external this) && ext) = false →
  external_gate this ext m.
Proof.
  unfold missing_in_min_sdk, external_gate. intros Hmiss Hrefine ->.
  rewrite andb_true_r, negb_false_iff in Hrefine.
  destruct (m_min_sdk_api this) as [api|]; simpl in Hmiss; [|done].
  injection Hmiss as Hhas. rewrite negb_false_iff in Hhas. eauto.
Qed.

Lemma external_gate_missing this ext m :
  external_gate this ext m →
  (negb (m_refine_to_external this) && ext) = false ∧
  missing_in_min_sdk this ext m = Ok false.
Proof.
  unfold external_gate, missing_in_min_sdk.
  destruct ext; [|intros _; by rewrite andb_false_r].
  intros [-> (api & -> & Hhas)]; [done|]. simpl. by rewrite Hhas.
Qed.

(** The outcome of [resolve_method_refs] on an instruction that has a
    method reference, case by case. *)
Lemma resolve_method_refs_inv this cs caller insn stats mref r :
  get_method insn = Ok mref →
  resolve_method_refs this cs caller insn stats = Ok r →
  r = (cs, insn, stats) ∨
  ∃ mdef cls,
    resolve_method cs mref (opcode_to_search insn) caller = Some mdef ∧
    mdef ≠ mref ∧
    external_gate this (mref_is_external mdef) mdef ∧
    type_class cs (mref_class mdef) = Some cls ∧
    (cls_is_external cls && negb (is_public cls)) = false ∧
    r = (if negb (is_public cls) then set_public cs cls else cs,
         set_method insn mdef, incr_num_mref_resolved stats).
Proof.
  intros Hget. unfold resolve_method_refs.
  rewrite (get_method_has_method _ _ Hget), Hget. simpl.
  destruct (resolve_method cs mref (opcode_to_search insn) caller)
    as [mdef|] eqn:Hres; [|intros [= <-]; by left].
  case_bool_decide as Hsame; [intros [= <-]; by left|].
  destruct (negb (m_refine_to_external this) && mref_is_external mdef)
    eqn:Hrefine; [intros [= <-]; by left|].
  destruct (missing_in_min_sdk this (mref_is_external mdef) mdef)
    as [[|]| | |] eqn:Hmiss; simpl; try done; [intros [= <-]; by left|].
  destruct (type_class cs (mref_class mdef)) as [cls|] eqn:Hcls; simpl;
    [|done].
  destruct (cls_is_external cls && negb (is_public cls)) eqn:Hhidden;
    [intros [= <-]; by left|].
  intros [= <-]. right. exists mdef, cls.
  eauto 10 using missing_in_min_sdk_gate.
Qed.

(** Past the external gate, what [resolve_method_refs] does depends on
    the class of the definition alone. *)
Lemma resolve_method_refs_on_class this cs caller insn stats mref mdef :
  get_method insn = Ok mref →
  resolve_method cs mref (opcode_to_search insn) caller = Some mdef →
  mdef ≠ mref →
  external_gate this (mref_is_external mdef) mdef →
  (type_class cs (mref_class mdef) = None →
     resolve_method_refs this cs caller insn stats = NullDereference) ∧
  (∀ cls, type_class cs (mref_class mdef) = Some cls →
     cls_is_external cls = true → is_public cls = false →
     resolve_method_refs this cs caller insn stats = Ok (cs, insn, stats)) ∧
  (∀ cls, type_class cs (mref_class mdef) = Some cls →
     cls_is_external cls = false ∨ is_public cls = true →
     resolve_method_refs this cs caller insn stats
       = Ok (if is_public cls then cs else set_public cs cls,
             set_method insn mdef, incr_num_mref_resolved stats)).
Proof.
  intros Hget Hres Hne Hgate.
  destruct (external_gate_missing _ _ _ Hgate) as [Hrefine Hmiss].
  unfold resolve_method_refs.
  rewrite (get_method_has_method _ _ Hget), Hget. simpl.
  rewrite Hres, (bool_decide_eq_false_2 _ Hne), Hrefine, Hmiss. simpl.
  split; [by intros ->|]. split.
  - intros cls -> Hext Hpub. by rewrite Hext, Hpub.
  - intros cls -> Hcase. simpl.
    destruct (is_public cls) eqn:Hpub; simpl.
    + by rewrite andb_false_r.
    + destruct Hcase as [->|]; done.
Qed.

(** C10. In [resolve_method_refs], when the resolved definition is
    distinct from the reference and passes the external gate but
    [type_class] finds no class for its owner, the code that follows
    dereferences the null class pointer. The only bail-out on the class
    is for a non-public external class, which leaves the instruction
    alone; every other class found lets the rewrite through. *)
Theorem resolve_method_refs_null_class this cs caller insn stats mref mdef :
  get_method insn = Ok mref →
  resolve_method cs mref (opcode_to_search insn) caller = Some mdef →
  mdef ≠ mref →
  external_gate this (mref_is_external mdef) mdef →
  (type_class cs (mref_class mdef) = None →
     resolve_method_refs this cs caller insn stats = NullDereference) ∧
  (∀ cls, type_class cs (mref_class mdef) = Some cls →
     cls_is_external cls = true → is_public cls = false →
     resolve_method_refs this cs caller insn stats = Ok (cs, insn, stats)) ∧
  (∀ cls, type_class cs (mref_class mdef) = Some cls →
     cls_is_external cls = false ∨ is_public cls = true →
     resolve_method_refs this cs caller insn stats
       = Ok (if is_public cls then cs else set_public cs cls,
             set_method insn mdef, incr_num_mref_resolved stats)).
Proof. apply resolve_method_refs_on_class. Qed.

End method_refs.

Lemma resolve_method_refs_null_class_witness :
  resolve_method_refs (collab := TestScope.ghost_target)
    (TestScope.pass false [] TestScope.sdk_none) TestScope.classes
    TestScope.caller (TestScope.invoke OPCODE_INVOKE_VIRTUAL TestScope.Sub_m)
    RefStats_init
  = NullDereference.
Proof.
  refine (proj1 (resolve_method_refs_null_class
           (collab := TestScope.ghost_target)
           (TestScope.pass false [] TestScope.sdk_none) TestScope.classes
           TestScope.caller (TestScope.invoke OPCODE_INVOKE_VIRTUAL TestScope.Sub_m)
           RefStats_init TestScope.Sub_m TestScope.Ghost_m
           eq_refl eq_refl _ _) eq_refl).
  - discriminate.
  - intros Hext. discriminate Hext.
Defined.

(** ** Virtual call refinement *)

Section refinement.
Context {collab : Collaborators}.

Lemma is_excluded_external_true excluded_externals name :
  is_excluded_external excluded_externals name = true ↔
  ∃ excluded, excluded ∈ excluded_externals ∧
              String.prefix excluded name = true.
Proof.
  induction excluded_externals as [|p rest IH]; simpl.
  - split; [done|]. intros (p & Hin & _). by apply elem_of_nil in Hin.
  - destruct (String.prefix p name) eqn:Hp.
    + split; [|done]. intros _. exists p. split; [apply list_elem_of_here|done].
    + rewrite IH. split.
      * intros (q & Hin & Hq). exists q. split; [by apply list_elem_of_further|done].
      * intros (q & Hin & Hq). apply elem_of_cons in Hin as [->|Hin].
        -- congruence.
        -- by exists q.
Qed.

(** [get_inferred_method_def] returns a method exactly when the three
    bail-outs of the source are passed. *)
Lemma get_inferred_method_def_Some cs caller excluded_externals
    is_support_lib callee inferred_type resolved :
  get_inferred_method_def cs caller excluded_externals is_support_lib callee
    inferred_type = Some resolved ↔
  resolve_method_in cs (type_class cs inferred_type) (mref_name callee)
    (mref_proto callee) MS_Virtual = Some resolved ∧
  mref_is_def resolved = true ∧
  (∀ cls, type_class cs (mref_class resolved) = Some cls →
     cls_is_external cls = true →
     is_excluded_external excluded_externals (show resolved) = false) ∧
  can_access cs caller resolved = true.
Proof.
  unfold get_inferred_method_def.
  destruct (resolve_method_in cs (type_class cs inferred_type)
              (mref_name callee) (mref_proto callee) MS_Virtual)
    as [r|] eqn:Hres; [|split; [done | by intros [? _]]].
  destruct (mref_is_def r) eqn:Hdef; simpl;
    [|split; [done | intros ([= <-] & ? & _); congruence]].
  destruct (type_class cs (mref_class r)) as [cls|] eqn:Hcls.
  - destruct (cls_is_external cls) eqn:Hext; simpl.
    + destruct (is_excluded_external excluded_externals (show r)) eqn:Hex.
      * split; [done|]. intros ([= <-] & _ & Hno & _).
        specialize (Hno cls Hcls Hext). congruence.
      * destruct (can_access cs caller r) eqn:Hacc; simpl.
        -- split; [intros [= <-]; rewrite Hcls; repeat split; try done;
                   by intros ? [= <-] | by intros ([= <-] & _)].
        -- split; [done | intros ([= <-] & _ & _ & ?); congruence].
    + destruct (can_access cs caller r) eqn:Hacc; simpl.
      * split; [intros [= <-]; rewrite Hcls; repeat split; try done;
                intros ? [= <-]; congruence | by intros ([= <-] & _)].
      * split; [done | intros ([= <-] & _ & _ & ?); congruence].
  - simpl. destruct (can_access cs caller r) eqn:Hacc; simpl.
    + split; [intros [= <-]; rewrite Hcls; repeat split; done
             | by intros ([= <-] & _)].
    + split; [done | intros ([= <-] & _ & _ & ?); congruence].
Qed.

(** [try_desuperify] touches the opcode of an [invoke-super] and the
    counter [num_invoke_super_removed], nothing else. *)
Lemma try_desuperify_inv cs caller insn stats insn1 stats1 :
  try_desuperify cs caller insn stats = Ok (insn1, stats1) →
  (insn1 = insn ∧ stats1 = stats) ∨
  (insn_opcode insn = OPCODE_INVOKE_SUPER ∧
   insn1 = set_opcode insn OPCODE_INVOKE_VIRTUAL ∧
   stats1 = incr_num_invoke_super_removed stats).
Proof.
  unfold try_desuperify.
  destruct (opcode.is_invoke_super (insn_opcode insn)) eqn:Hop; simpl;
    [|intros [= <- <-]; by left].
  assert (insn_opcode insn = OPCODE_INVOKE_SUPER) as Hsuper
    by (by destruct (insn_opcode insn)).
  destruct (type_class cs (mref_class caller)); [|intros [= <- <-]; by left].
  destruct (get_method insn) as [mref| | |]; simpl; try done.
  destruct (type_class cs (mref_class mref)) as [callee_cls|];
    [|intros [= <- <-]; by left].
  destruct (is_interface callee_cls); [intros [= <- <-]; by left|].
  destruct (resolve_method_ref _ _ _ _ _) as [callee|];
    [|intros [= <- <-]; by left].
  destruct (mref_is_external callee || negb (is_final callee));
    intros [= <- <-]; [by left | by right].
Qed.

Lemma try_desuperify_not_super cs caller insn stats :
  insn_opcode insn ≠ OPCODE_INVOKE_SUPER →
  try_desuperify cs caller insn stats = Ok (insn, stats).
Proof.
  intros Hop. unfold try_desuperify.
  by destruct (insn_opcode insn).
Qed.

(** The loop body of [refine_virtual_callsites] is [try_desuperify], when
    asked for, followed by the loop body without it. *)
Lemma refine_virtual_callsites_insn_desuperify this cs method env
    is_support_lib specialize_rtype insn stats rtype_domain :
  refine_virtual_callsites_insn this cs method env is_support_lib true
    specialize_rtype insn stats rtype_domain
  = '(insn1, stats1) ← try_desuperify cs method insn stats;
    refine_virtual_callsites_insn this cs method env is_support_lib false
      specialize_rtype insn1 stats1 rtype_domain.
Proof.
  unfold refine_virtual_callsites_insn.
  by destruct (try_desuperify cs method insn stats) as [[insn1 stats1]| | |].
Qed.

(** On a call site, the loop body goes straight to the refinement. *)
Lemma refine_virtual_callsites_insn_callsite this cs method env
    is_support_lib desuperify specialize_rtype insn stats rtype_domain :
  insn_opcode insn = OPCODE_INVOKE_VIRTUAL ∨
  insn_opcode insn = OPCODE_INVOKE_INTERFACE →
  refine_virtual_callsites_insn this cs method env is_support_lib desuperify
    specialize_rtype insn stats rtype_domain
  = refine_virtual_callsites_insn this cs method env is_support_lib false
      false insn stats rtype_domain.
Proof.
  intros Hop. unfold refine_virtual_callsites_insn.
  destruct desuperify.
  - rewrite try_desuperify_not_super by (destruct Hop as [-> | ->]; done).
    simpl. destruct Hop as [-> | ->]; simpl; by rewrite andb_false_r.
  - simpl. destruct Hop as [-> | ->]; simpl; by rewrite andb_false_r.
Qed.

(** When the conditions and the external gate hold, the site is
    rewritten. *)
Lemma refine_virtual_callsites_insn_rewrite this cs method env is_support_lib
    desuperify specialize_rtype insn stats rtype_domain mref def_meth def_cls :
  refinement_conditions this cs method env is_support_lib insn mref def_meth
    def_cls →
  external_gate this (cls_is_external def_cls) def_meth →
  refine_virtual_callsites_insn this cs method env is_support_lib desuperify
    specialize_rtype insn stats rtype_domain
  = Ok (refined_insn insn def_meth def_cls, refined_stats insn def_cls stats,
        rtype_domain).
Proof.
  intros (callee & this_reg & e & dex_type & Hop & Hget & Hres & Hsrc & ->
          & Hty & Hdef & Hcls & Hne) Hgate.
  destruct (external_gate_missing _ _ _ Hgate) as [Hrefine Hmiss].
  rewrite refine_virtual_callsites_insn_callsite by done.
  unfold refine_virtual_callsites_insn, refined_insn, refined_stats. simpl.
  replace (negb (opcode.is_invoke_virtual (insn_opcode insn)) &&
           negb (opcode.is_invoke_interface (insn_opcode insn))) with false
    by (destruct Hop as [-> | ->]; done).
  rewrite Hget. simpl. rewrite Hres, Hsrc. simpl. rewrite Hty, Hdef, Hcls.
  rewrite (bool_decide_eq_false_2 _ Hne), Hrefine, Hmiss. simpl.
  by destruct (opcode.is_invoke_interface (insn_opcode insn)
               && negb (is_interface def_cls)).
Qed.

(** The outcome of the loop body without [try_desuperify], case by
    case: the instruction is left alone (and the statistics too, but for
    the return type candidates), or the conditions and the gate hold and
    the site is rewritten. *)
Lemma refine_virtual_callsites_insn_inv this cs method env is_support_lib
    specialize_rtype insn stats rtype_domain insn' stats' rtype_domain' :
  refine_virtual_callsites_insn this cs method env is_support_lib false
    specialize_rtype insn stats rtype_domain
    = Ok (insn', stats', rtype_domain') →
  (insn' = insn ∧
   stats' = set_rtype_candidates stats (rtype_candidates stats') ∧
   (specialize_rtype = false → stats' = stats ∧ rtype_domain' = rtype_domain))
  ∨
  (∃ mref def_meth def_cls,
     refinement_conditions this cs method env is_support_lib insn mref
       def_meth def_cls ∧
     external_gate this (cls_is_external def_cls) def_meth ∧
     insn' = refined_insn insn def_meth def_cls ∧
     stats' = refined_stats insn def_cls stats ∧
     rtype_domain' = rtype_domain).
Proof.
  assert (Hsame : ∀ s : RefStats, s = set_rtype_candidates s (rtype_candidates s))
    by (by intros []).
  unfold refine_virtual_callsites_insn. simpl.
  destruct (specialize_rtype && opcode.is_return_object (insn_opcode insn))
    eqn:Hret.
  { destruct (envs_at env) as [e| | |]; simpl; try done.
    destruct (src insn 0) as [r| | |]; simpl; try done.
    destruct (collect_inferred_rtype _ _ _ _) as [candidates rd].
    intros [= <- <- <-]. left. split; [done|]. split; [done|].
    intros ->. done. }
  destruct (negb (opcode.is_invoke_virtual (insn_opcode insn)) &&
            negb (opcode.is_invoke_interface (insn_opcode insn))) eqn:Hop.
  { intros [= <- <- <-]. left. eauto. }
  assert (insn_opcode insn = OPCODE_INVOKE_VIRTUAL ∨
          insn_opcode insn = OPCODE_INVOKE_INTERFACE) as Hop'.
  { destruct (insn_opcode insn); try discriminate Hop; eauto. }
  destruct (get_method insn) as [mref| | |] eqn:Hget; simpl; try done.
  destruct (resolve_method cs mref (opcode_to_search insn) method)
    as [callee|] eqn:Hres; [|intros [= <- <- <-]; left; eauto].
  destruct (src insn 0) as [this_reg| | |] eqn:Hsrc; simpl; try done.
  destruct env as [e|]; simpl; [|done].
  destruct (get_dex_type e this_reg) as [dex_type|] eqn:Hty;
    [|intros [= <- <- <-]; left; eauto].
  destruct (get_inferred_method_def _ _ _ _ _ _) as [def_meth|] eqn:Hdef;
    [|intros [= <- <- <-]; left; eauto].
  destruct (type_class cs (mref_class def_meth)) as [def_cls|] eqn:Hcls;
    [|intros [= <- <- <-]; left; eauto].
  case_bool_decide as Hne; [intros [= <- <- <-]; left; eauto|].
  destruct (negb (m_refine_to_external this) && cls_is_external def_cls)
    eqn:Hrefine; [intros [= <- <- <-]; left; eauto|].
  destruct (missing_in_min_sdk this (cls_is_external def_cls) def_meth)
    as [[|]| | |] eqn:Hmiss; simpl; try done;
    [intros [= <- <- <-]; left; eauto|].
  intros Hout. right. exists mref, def_meth, def_cls.
  assert (external_gate this (cls_is_external def_cls) def_meth) as Hgate
    by eauto using missing_in_min_sdk_gate.
  split; [by exists callee, this_reg, e, dex_type|]. split; [done|].
  unfold refined_insn, refined_stats.
  destruct (opcode.is_invoke_interface (insn_opcode insn)
            && negb (is_interface def_cls));
    by injection Hout as <- <- <-.
Qed.

End refinement.

Section gates.
Context {collab : Collaborators}.


(** C4. When the loop body of [refine_virtual_callsites] rewrites the
    method reference of an instruction to [def_meth], a definition of the
    class [def_cls]: an [invoke-interface] becomes an [invoke-virtual] if
    and only if [def_cls] is not an interface, and stays an
    [invoke-interface] otherwise; and exactly one of
    [num_invoke_interface_replaced] (the opcode was changed from
    [invoke-interface]) and [num_invoke_virtual_refined] (it was not) goes
    up by one, the other staying as it was. *)
Theorem refinement_counts_one_rewrite this cs method env is_support_lib
    desuperify specialize_rtype insn stats rtype_domain
    insn' stats' rtype_domain' :
  refine_virtual_callsites_insn this cs method env is_support_lib desuperify
    specialize_rtype insn stats rtype_domain
    = Ok (insn', stats', rtype_domain') →
  insn_ref insn' ≠ insn_ref insn →
  ∃ def_meth def_cls,
    insn_ref insn' = MethodRef def_meth ∧
    type_class cs (mref_class def_meth) = Some def_cls ∧
    (insn_opcode insn = OPCODE_INVOKE_INTERFACE →
       (insn_opcode insn' = OPCODE_INVOKE_VIRTUAL
          ↔ is_interface def_cls = false) ∧
       (insn_opcode insn' = OPCODE_INVOKE_INTERFACE
          ↔ is_interface def_cls = true)) ∧
    ((insn_opcode insn = OPCODE_INVOKE_INTERFACE ∧
      insn_opcode insn' = OPCODE_INVOKE_VIRTUAL ∧
      num_invoke_interface_replaced stats'
        = size_t_incr (num_invoke_interface_replaced stats) ∧
      num_invoke_interface_replaced stats'
        ≠ num_invoke_interface_replaced stats ∧
      num_invoke_virtual_refined stats' = num_invoke_virtual_refined stats)
     ∨
     ((insn_opcode insn = OPCODE_INVOKE_INTERFACE →
         insn_opcode insn' = OPCODE_INVOKE_INTERFACE) ∧
      num_invoke_virtual_refined stats'
        = size_t_incr (num_invoke_virtual_refined stats) ∧
      num_invoke_virtual_refined stats' ≠ num_invoke_virtual_refined stats ∧
      num_invoke_interface_replaced stats'
        = num_invoke_interface_replaced stats)).
Proof.
  intros Hrun Hchanged.
  assert (∃ insn1 stats1,
    insn_ref insn1 = insn_ref insn ∧
    (insn1 = insn ∨
     insn_opcode insn = OPCODE_INVOKE_SUPER ∧
     insn_opcode insn1 = OPCODE_INVOKE_VIRTUAL) ∧
    num_invoke_interface_replaced stats1 = num_invoke_interface_replaced stats ∧
    num_invoke_virtual_refined stats1 = num_invoke_virtual_refined stats ∧
    refine_virtual_callsites_insn this cs method env is_support_lib false
      specialize_rtype insn1 stats1 rtype_domain
      = Ok (insn', stats', rtype_domain'))
    as (insn1 & stats1 & Href & Hsuper & Hreplaced & Hrefined & Hrun1).
  { destruct desuperify; [|exists insn, stats; eauto 10].
    rewrite refine_virtual_callsites_insn_desuperify in Hrun.
    destruct (try_desuperify cs method insn stats)
      as [[insn1 stats1]| | |] eqn:Hsuper; try done.
    exists insn1, stats1.
    destruct (try_desuperify_inv _ _ _ _ _ _ Hsuper)
      as [[-> ->] | (Hop & -> & ->)]; eauto 10. }
  destruct (refine_virtual_callsites_insn_inv _ _ _ _ _ _ _ _ _ _ _ _ Hrun1)
    as [(-> & _) | (mref & def_meth & def_cls & Hcond & _ & -> & -> & _)];
    [congruence|].
  exists def_meth, def_cls.
  destruct Hcond as (? & ? & ? & ? & Hop & _ & _ & _ & _ & _ & _ & Hcls & _).
  assert (insn_opcode insn = OPCODE_INVOKE_INTERFACE → insn1 = insn) as Hitf.
  { intros Hop'. destruct Hsuper as [-> | [Hop'' _]]; congruence. }
  unfold refined_insn, refined_stats.
  rewrite <- Hreplaced, <- Hrefined.
  destruct (is_interface def_cls) eqn:Hdef_itf.
  - rewrite andb_false_r. simpl.
    split; [done|]. split; [done|]. split.
    + intros Hop'. rewrite (Hitf Hop'), Hop'. by split.
    + right. split; [|by auto using size_t_incr_neq].
      intros Hop'. by rewrite (Hitf Hop').
  - rewrite andb_true_r.
    destruct (opcode.is_invoke_interface (insn_opcode insn1)) eqn:Hop1; simpl.
    + split; [done|]. split; [done|]. split; [by split|].
      left. split; [|by auto using size_t_incr_neq].
      destruct Hsuper as [-> | [_ Hop']]; [|by rewrite Hop' in Hop1].
      by destruct (insn_opcode insn).
    + split; [done|]. split; [done|].
      assert (insn_opcode insn ≠ OPCODE_INVOKE_INTERFACE) as Hno.
      { intros Hop'. rewrite (Hitf Hop'), Hop' in Hop1. done. }
      split; [done|]. right. split; [done|]. by auto using size_t_incr_neq.
Qed.

End gates.



Lemma refinement_counts_one_rewrite_witness :
  ∃ def_meth def_cls,
    MethodRef TestScope.Base_m = MethodRef def_meth ∧
    type_class TestScope.classes (mref_class def_meth) = Some def_cls ∧
    is_interface def_cls = false ∧
    num_invoke_interface_replaced
      (incr_num_invoke_interface_replaced
         (RefStats_init (collab := TestScope.interface_to_class)))
    = size_t_incr 0.
Proof.
  destruct (refinement_counts_one_rewrite
              (collab := TestScope.interface_to_class)
              (TestScope.pass false [] TestScope.sdk_none) TestScope.classes
              TestScope.caller (Some (Some "LBase;")) false true true
              (TestScope.invoke OPCODE_INVOKE_INTERFACE TestScope.Iface_m)
              RefStats_init None
              (TestScope.invoke OPCODE_INVOKE_VIRTUAL TestScope.Base_m)
              (incr_num_invoke_interface_replaced RefStats_init) None
              eq_refl)
    as (def_meth & def_cls & Href & Hcls & Hop & Hcount).
  - discriminate.
  - exists def_meth, def_cls. split; [exact Href|]. split; [exact Hcls|].
    split.
    + exact (proj1 (proj1 (Hop eq_refl)) eq_refl).
    + reflexivity.
Defined.

Section excluded.
Context {collab : Collaborators}.

(** C7, as the code has it. During virtual call refinement, the rewrite
    to the target resolved from the inferred class of the receiver is
    rejected whenever the class of that target is external and the name
    of the target starts with a prefix of the excluded externals: then
    [get_inferred_method_def] returns none, whoever the caller, and the
    call site, its statistics and the return type domain are left as they
    are. *)
Theorem excluded_externals_are_rejected cs excluded_externals is_support_lib
    callee inferred_type resolved resolved_cls excluded :
  resolve_method_in cs (type_class cs inferred_type) (mref_name callee)
    (mref_proto callee) MS_Virtual = Some resolved →
  type_class cs (mref_class resolved) = Some resolved_cls →
  cls_is_external resolved_cls = true →
  excluded ∈ excluded_externals →
  String.prefix excluded (show resolved) = true →
  (∀ caller,
     get_inferred_method_def cs caller excluded_externals is_support_lib
       callee inferred_type = None) ∧
  (∀ this method env desuperify specialize_rtype insn stats rtype_domain
     mref this_reg e,
     m_excluded_externals this = excluded_externals →
     insn_opcode insn = OPCODE_INVOKE_VIRTUAL ∨
     insn_opcode insn = OPCODE_INVOKE_INTERFACE →
     get_method insn = Ok mref →
     resolve_method cs mref (opcode_to_search insn) method = Some callee →
     src insn 0 = Ok this_reg →
     env = Some e →
     get_dex_type e this_reg = Some inferred_type →
     refine_virtual_callsites_insn this cs method env is_support_lib
       desuperify specialize_rtype insn stats rtype_domain
       = Ok (insn, stats, rtype_domain)).
Proof.
  intros Hres Hcls Hext Hin Hprefix.
  assert (∀ caller,
    get_inferred_method_def cs caller excluded_externals is_support_lib
      callee inferred_type = None) as Hnone.
  { intros caller.
    destruct (get_inferred_method_def cs caller excluded_externals
                is_support_lib callee inferred_type) as [r|] eqn:Hdef; [|done].
    apply get_inferred_method_def_Some in Hdef as (Hres' & _ & Hno & _).
    rewrite Hres in Hres'. injection Hres' as <-.
    specialize (Hno resolved_cls Hcls Hext).
    assert (is_excluded_external excluded_externals (show resolved) = true)
      as Hyes by (apply is_excluded_external_true; eauto).
    congruence. }
  split; [done|].
  intros this method env desuperify specialize_rtype insn stats rtype_domain
    mref this_reg e Hexcl Hop Hget Hcallee Hsrc -> Hty.
  rewrite refine_virtual_callsites_insn_callsite by done.
  unfold refine_virtual_callsites_insn. simpl.
  replace (negb (opcode.is_invoke_virtual (insn_opcode insn)) &&
           negb (opcode.is_invoke_interface (insn_opcode insn))) with false
    by (destruct Hop as [-> | ->]; done).
  rewrite Hget. simpl. rewrite Hcallee, Hsrc. simpl.
  by rewrite Hty, Hexcl, Hnone.
Qed.

End excluded.

(** C7, as stated, fails: the name of [LDerived;.m:()V] starts with the
    excluded prefix [LDerived;], but its class is not external, and the
    call site is rewritten to it. *)
Lemma excluded_prefix_of_internal_target :
  String.prefix "LDerived;"
    (show (Collaborators := TestScope.base_to_derived) TestScope.Derived_m)
    = true ∧
  get_inferred_method_def (collab := TestScope.base_to_derived)
    TestScope.classes TestScope.caller ["LDerived;"] false TestScope.Base_m
    "LDerived;" = Some TestScope.Derived_m ∧
  refine_virtual_callsites_insn (collab := TestScope.base_to_derived)
    (TestScope.pass false ["LDerived;"] TestScope.sdk_none) TestScope.classes
    TestScope.caller (Some (Some "LDerived;")) false true true
    (TestScope.invoke OPCODE_INVOKE_VIRTUAL TestScope.Base_m) RefStats_init None
  = Ok (TestScope.invoke OPCODE_INVOKE_VIRTUAL TestScope.Derived_m,
        incr_num_invoke_virtual_refined RefStats_init, None).
Proof. repeat split. Qed.

Lemma excluded_externals_are_rejected_witness :
  get_inferred_method_def (collab := TestScope.external_target)
    TestScope.classes TestScope.caller ["Landroid/"] false TestScope.Build_ref
    "Landroid/os/Build;" = None ∧
  refine_virtual_callsites_insn (collab := TestScope.external_target)
    (TestScope.pass true ["Landroid/"] TestScope.sdk_all) TestScope.classes
    TestScope.caller (Some (Some "Landroid/os/Build;")) false true true
    (TestScope.invoke OPCODE_INVOKE_VIRTUAL TestScope.Build_ref)
    RefStats_init None
  = Ok (TestScope.invoke OPCODE_INVOKE_VIRTUAL TestScope.Build_ref,
        RefStats_init, None).
Proof.
  destruct (excluded_externals_are_rejected
              (collab := TestScope.external_target) TestScope.classes
              ["Landroid/"] false TestScope.Build_get "Landroid/os/Build;"
              TestScope.Build_get
              (mkDexClass "Landroid/os/Build;" TestScope.external_public)
              "Landroid/" eq_refl eq_refl eq_refl (list_elem_of_here _ _)
              eq_refl)
    as [Hnone Hsite].
  split.
  - exact (Hnone TestScope.caller).
  - exact (Hsite (TestScope.pass true ["Landroid/"] TestScope.sdk_all)
             TestScope.caller (Some (Some "Landroid/os/Build;")) true true
             (TestScope.invoke OPCODE_INVOKE_VIRTUAL TestScope.Build_ref)
             RefStats_init None TestScope.Build_ref 0
             (Some "Landroid/os/Build;") eq_refl (or_introl eq_refl) eq_refl
             eq_refl eq_refl eq_refl eq_refl).
Defined.

(** ** Field reference resolution *)

Section field_refs.
Context {collab : Collaborators}.

(** Without its conditions, [resolve_field_refs] does nothing. *)
Lemma resolve_field_refs_skip cs insn field_search stats fref :
  get_field insn = Ok fref →
  (∀ real_ref, ¬ field_conditions cs field_search fref real_ref) →
  resolve_field_refs cs insn field_search stats = Ok (cs, insn, stats).
Proof.
  intros Hget Hno. unfold resolve_field_refs. rewrite Hget. simpl.
  destruct (fref_is_def fref) eqn:Hdef; [done|].
  destruct (resolve_field cs fref field_search) as [real_ref|] eqn:Hres;
    [|done].
  destruct (fref_is_external real_ref) eqn:Hext; simpl; [done|].
  case_bool_decide as Hsame; simpl; [done|].
  by destruct (Hno real_ref).
Qed.

(** With them, it rewrites the field reference and counts it; what
    follows depends on the class of the definition. *)
Lemma resolve_field_refs_rewrite cs insn field_search stats fref real_ref :
  get_field insn = Ok fref →
  field_conditions cs field_search fref real_ref →
  resolve_field_refs cs insn field_search stats =
    match type_class cs (fref_class real_ref) with
    | None => AssertionFailure "cls != nullptr"
    | Some cls =>
        Ok (if negb (is_public cls) && negb (cls_is_external cls)
            then set_public cs cls else cs,
            set_field insn real_ref, incr_num_fref_resolved stats)
    end.
Proof.
  intros Hget (Hdef & Hres & Hext & Hne). unfold resolve_field_refs.
  rewrite Hget. simpl. rewrite Hdef, Hres, Hext.
  rewrite (bool_decide_eq_false_2 _ Hne). simpl.
  destruct (type_class cs (fref_class real_ref)) as [cls|]; [|done].
  by destruct (is_public cls), (cls_is_external cls).
Qed.

End field_refs.

(** ** Failure semantics *)

Section conservative.
Context {collab : Collaborators}.



End conservative.

Section field_claims.
Context {collab : Collaborators}.

(** C6, as the code has it. For a field access, [resolve_refs] calls
    [resolve_field_refs] with the static search for [sget*] and [sput*]
    and with the instance search for [iget*] and [iput*]. If the field
    reference is a definition already, nothing changes. Otherwise, if the
    lookup finds a definition that is not external and is not the
    reference itself, the code asserts that the class of the definition is
    loaded; the field operand is rewritten to the definition and
    [num_fref_resolved] goes up by one; and the class ends up public
    when it is not external, while an external class is left as it is. *)
Theorem field_refs_are_resolved this cs method insn stats fref field_search :
  get_field insn = Ok fref →
  searched_as (insn_opcode insn) = Some field_search →
  resolve_refs_insn this cs method insn stats
    = resolve_field_refs cs insn field_search stats ∧
  (fref_is_def fref = true →
     resolve_field_refs cs insn field_search stats = Ok (cs, insn, stats)) ∧
  (∀ real_ref,
     field_conditions cs field_search fref real_ref →
     (type_class cs (fref_class real_ref) = None →
        resolve_field_refs cs insn field_search stats
          = AssertionFailure "cls != nullptr") ∧
     (∀ cls,
        type_class cs (fref_class real_ref) = Some cls →
        ∃ cs',
          resolve_field_refs cs insn field_search stats
            = Ok (cs', set_field insn real_ref, incr_num_fref_resolved stats) ∧
          get_field (set_field insn real_ref) = Ok real_ref ∧
          num_fref_resolved (incr_num_fref_resolved stats)
            = size_t_incr (num_fref_resolved stats) ∧
          (cls_is_external cls = false →
             is_public <$> type_class cs' (fref_class real_ref) = Some true) ∧
          (cls_is_external cls = true → cs' = cs))).
Proof.
  intros Hget Hsearch. split; [|split].
  - unfold resolve_refs_insn.
    destruct (insn_opcode insn); simpl in Hsearch; try discriminate Hsearch;
      by injection Hsearch as <-.
  - intros Hdef. apply (resolve_field_refs_skip _ _ _ _ fref); [done|].
    intros real_ref (Hdef' & _). congruence.
  - intros real_ref Hcond.
    rewrite (resolve_field_refs_rewrite _ _ _ _ _ _ Hget Hcond).
    split; [by intros ->|]. intros cls Hcls. rewrite Hcls.
    eexists. split; [done|]. split; [done|]. split; [done|]. split.
    + intros ->. rewrite andb_true_r.
      destruct (is_public cls) eqn:Hpub; simpl.
      * by rewrite Hcls, <- Hpub.
      * by rewrite (type_class_set_public _ _ _ Hcls).
    + intros ->. by rewrite andb_false_r.
Qed.

End field_claims.

(** C6, as stated, fails: [LSub;.f:I] resolves to [Landroid/Hidden;.f:I],
    which is not external; the [sget] is rewritten and counted, and the
    class [Landroid/Hidden;], external, is not made public. *)
Lemma external_class_is_not_made_public :
  fref_is_def TestScope.Sub_f = false ∧
  resolve_field (Collaborators := TestScope.hidden_field) TestScope.classes
    TestScope.Sub_f FS_Static = Some TestScope.Hidden_f ∧
  fref_is_external TestScope.Hidden_f = false ∧
  TestScope.Hidden_f ≠ TestScope.Sub_f ∧
  ∃ cs',
    resolve_field_refs (collab := TestScope.hidden_field) TestScope.classes
      (TestScope.field_op OPCODE_SGET TestScope.Sub_f) FS_Static RefStats_init
    = Ok (cs', TestScope.field_op OPCODE_SGET TestScope.Hidden_f,
          incr_num_fref_resolved RefStats_init) ∧
    is_public <$> type_class cs' (fref_class TestScope.Hidden_f) = Some false.
Proof.
  repeat split; [discriminate|].
  exists TestScope.classes. split; reflexivity.
Qed.

Lemma field_refs_are_resolved_witness :
  ∃ cs',
    resolve_field_refs (collab := TestScope.derived_field) TestScope.classes
      (TestScope.field_op OPCODE_IGET TestScope.Sub_f) FS_Instance RefStats_init
    = Ok (cs', TestScope.field_op OPCODE_IGET TestScope.Derived_f,
          incr_num_fref_resolved RefStats_init) ∧
    is_public <$> type_class cs' (fref_class TestScope.Derived_f) = Some true.
Proof.
  destruct (field_refs_are_resolved (collab := TestScope.derived_field)
              (TestScope.pass false [] TestScope.sdk_none) TestScope.classes
              TestScope.caller (TestScope.field_op OPCODE_IGET TestScope.Sub_f)
              RefStats_init TestScope.Sub_f FS_Instance eq_refl eq_refl)
    as (_ & _ & Hrewrite).
  destruct (Hrewrite TestScope.Derived_f) as [_ Hcls].
  - repeat split. discriminate.
  - destruct (Hcls (mkDexClass "LDerived;" TestScope.internal_hidden) eq_refl)
      as (cs' & Hrun & _ & _ & Hpub & _).
    exists cs'. split; [exact Hrun | exact (Hpub eq_refl)].
Defined.


(** ** Which invokes [resolve_refs] resolves *)

Section invokes.
Context {collab : Collaborators}.

(** The loop of [resolve_refs] hands every instruction of the body to the
    [switch], in order, and puts what the [switch] leaves in its place. *)
Lemma resolve_refs_loop_each this method code :
  ∀ cs stats cs' code' stats',
    resolve_refs_loop this cs method code stats = Ok (cs', code', stats') →
    Forall2
      (λ insn insn',
         ∃ cs1 stats1 cs2 stats2,
           resolve_refs_insn this cs1 method insn stats1
             = Ok (cs2, insn', stats2))
      code code'.
Proof.
  induction code as [|insn rest IH]; simpl; intros cs stats cs' code' stats'.
  - intros [= <- <- <-]. constructor.
  - destruct (resolve_refs_insn this cs method insn stats)
      as [[[cs1 insn1] stats1]| | |] eqn:Hinsn; simpl; try done.
    destruct (resolve_refs_loop this cs1 method rest stats1)
      as [[[cs2 rest2] stats2]| | |] eqn:Hrest; simpl; try done.
    intros [= <- <- <-]. constructor; [eauto 10|]. eauto.
Qed.

(** C5, as the code has it. [resolve_refs] hands every instruction of the
    body to its [switch], which calls [resolve_method_refs] for an invoke
    of kind virtual, super, interface or static, resolving the reference
    with the search of that kind, and leaves an [invoke-direct] alone.
    [resolve_method_refs] rewrites the reference only when the resolution
    is non-null and distinct from it, and does rewrite it then if the
    external gate is passed and the class of the definition is loaded and
    is not a non-public external class. *)
Theorem resolve_refs_resolves_invokes this cs method insn stats :
  (∀ body cs0 stats0 cs' body' stats',
     resolve_refs_loop this cs0 method body stats0 = Ok (cs', body', stats') →
     Forall2
       (λ insn insn',
          ∃ cs1 stats1 cs2 stats2,
            resolve_refs_insn this cs1 method insn stats1
              = Ok (cs2, insn', stats2))
       body body') ∧
  (∀ search,
     (insn_opcode insn, search) ∈
       [(OPCODE_INVOKE_VIRTUAL, MS_Virtual); (OPCODE_INVOKE_SUPER, MS_Super);
        (OPCODE_INVOKE_INTERFACE, MS_Interface);
        (OPCODE_INVOKE_STATIC, MS_Static)] →
     opcode_to_search insn = search ∧
     resolve_refs_insn this cs method insn stats
       = resolve_method_refs this cs method insn stats ∧
     ∀ mref,
       get_method insn = Ok mref →
       (∀ cs' insn' stats',
          resolve_method_refs this cs method insn stats
            = Ok (cs', insn', stats') →
          insn' ≠ insn →
          ∃ mdef,
            resolve_method cs mref search method = Some mdef ∧
            mdef ≠ mref ∧
            insn' = set_method insn mdef ∧
            stats' = incr_num_mref_resolved stats) ∧
       (∀ mdef cls,
          resolve_method cs mref search method = Some mdef →
          mdef ≠ mref →
          external_gate this (mref_is_external mdef) mdef →
          type_class cs (mref_class mdef) = Some cls →
          cls_is_external cls = false ∨ is_public cls = true →
          resolve_method_refs this cs method insn stats
            = Ok (if is_public cls then cs else set_public cs cls,
                  set_method insn mdef, incr_num_mref_resolved stats))) ∧
  (insn_opcode insn = OPCODE_INVOKE_DIRECT →
     resolve_refs_insn this cs method insn stats = Ok (cs, insn, stats)).
Proof.
  split; [|split].
  - intros body cs0 stats0 cs' body' stats'. apply resolve_refs_loop_each.
  - intros search Hkind.
    assert (opcode_to_search insn = search ∧
            resolve_refs_insn this cs method insn stats
              = resolve_method_refs this cs method insn stats) as [Hsearch Hswitch].
    { unfold opcode_to_search, resolve_refs_insn.
      repeat (apply elem_of_cons in Hkind as [[= -> <-] | Hkind]; [done|]).
      by apply elem_of_nil in Hkind. }
    split; [done|]. split; [done|]. intros mref Hget. split.
    + intros cs' insn' stats' Hrun Hchanged.
      destruct (resolve_method_refs_inv _ _ _ _ _ _ _ Hget Hrun)
        as [[= -> -> ->] | (mdef & cls & Hres & Hne & _ & _ & _ & Hr)];
        [done|].
      injection Hr as -> -> ->. exists mdef. by rewrite <- Hsearch.
    + intros mdef cls Hres Hne Hgate Hcls Hcase. rewrite <- Hsearch in Hres.
      by apply (resolve_method_refs_on_class this cs method insn stats mref
                  mdef Hget Hres Hne Hgate).
  - intros Hop. unfold resolve_refs_insn. by rewrite Hop.
Qed.

End invokes.

(** C5, as stated, fails for [invoke-direct]: the direct search resolves
    [LSub;.m:()V] to the distinct definition [LBase;.m:()V], of a public
    class of the program, and [resolve_method_refs] would rewrite the
    instruction, but [resolve_refs] leaves the body as it is and counts
    nothing. *)
Lemma resolve_refs_skips_invoke_direct :
  resolve_method (Collaborators := TestScope.base_to_derived) TestScope.classes
    TestScope.Sub_m
    (opcode_to_search (TestScope.invoke OPCODE_INVOKE_DIRECT TestScope.Sub_m))
    TestScope.caller = Some TestScope.Base_m ∧
  TestScope.Base_m ≠ TestScope.Sub_m ∧
  resolve_method_refs (collab := TestScope.base_to_derived)
    (TestScope.pass false [] TestScope.sdk_none) TestScope.classes
    TestScope.caller (TestScope.invoke OPCODE_INVOKE_DIRECT TestScope.Sub_m)
    RefStats_init
  = Ok (TestScope.classes,
        TestScope.invoke OPCODE_INVOKE_DIRECT TestScope.Base_m,
        incr_num_mref_resolved RefStats_init) ∧
  resolve_refs (collab := TestScope.base_to_derived)
    (TestScope.pass false [] TestScope.sdk_none) TestScope.classes
    (Some TestScope.direct_caller)
  = Ok (TestScope.classes, Some TestScope.direct_caller, RefStats_init).
Proof. repeat split. discriminate. Qed.

Lemma resolve_refs_resolves_invokes_witness :
  resolve_method_refs (collab := TestScope.base_to_derived)
    (TestScope.pass false [] TestScope.sdk_none) TestScope.classes
    TestScope.caller (TestScope.invoke OPCODE_INVOKE_STATIC TestScope.Sub_m)
    RefStats_init
  = Ok (TestScope.classes,
        TestScope.invoke OPCODE_INVOKE_STATIC TestScope.Base_m,
        incr_num_mref_resolved RefStats_init) ∧
  resolve_refs_insn (collab := TestScope.base_to_derived)
    (TestScope.pass false [] TestScope.sdk_none) TestScope.classes
    TestScope.caller (TestScope.invoke OPCODE_INVOKE_DIRECT TestScope.Sub_m)
    RefStats_init
  = Ok (TestScope.classes,
        TestScope.invoke OPCODE_INVOKE_DIRECT TestScope.Sub_m, RefStats_init).
Proof.
  split.
  - destruct (resolve_refs_resolves_invokes
                (collab := TestScope.base_to_derived)
                (TestScope.pass false [] TestScope.sdk_none) TestScope.classes
                TestScope.caller
                (TestScope.invoke OPCODE_INVOKE_STATIC TestScope.Sub_m)
                RefStats_init) as (_ & Hkind & _).
    destruct (Hkind MS_Static) as (_ & _ & Hinvoke).
    + do 3 apply list_elem_of_further. apply list_elem_of_here.
    + refine (proj2 (Hinvoke TestScope.Sub_m eq_refl) TestScope.Base_m
                (mkDexClass "LBase;" TestScope.internal_public) eq_refl _ _
                eq_refl (or_introl eq_refl)).
      * discriminate.
      * intros Hext. discriminate Hext.
  - exact (proj2 (proj2 (resolve_refs_resolves_invokes
             (collab := TestScope.base_to_derived)
             (TestScope.pass false [] TestScope.sdk_none) TestScope.classes
             TestScope.caller
             (TestScope.invoke OPCODE_INVOKE_DIRECT TestScope.Sub_m)
             RefStats_init)) eq_refl).
Defined.

(** ** The two passes of [run_pass] *)

Section run_pass.
Context {collab : Collaborators}.

















End run_pass.


(** ** The completion protocol of the type checker *)

Section checker.
Import IRTypeChecker.

Lemma pending_inv c :
  pending c → m_complete c = false ∧ m_good c = true ∧ m_what c = "OK".
Proof.
  induction 1 as [dex_method validate_access | c _ IH | c _ IH]; [done| |].
  - destruct IH as (Hc & Hg & Hw). unfold verify_moves. by rewrite Hc.
  - destruct IH as (Hc & Hg & Hw). unfold check_no_overwrite_this.
    by rewrite Hc.
Qed.

(** [first_error] is the error of the first instruction that has one. *)
Lemma first_error_Some check_instruction c code msg :
  first_error check_instruction c code = Some msg ↔
  ∃ before insn after,
    code = app before (insn :: after) ∧
    Forall (λ i, check_instruction c i = None) before ∧
    check_instruction c insn = Some msg.
Proof.
  induction code as [|i rest IH]; simpl.
  - split; [done|]. intros ([|? ?] & ? & ? & ? & _); done.
  - destruct (check_instruction c i) as [m|] eqn:Hi.
    + split.
      * intros [= ->]. exists [], i, rest. by repeat split.
      * intros ([|i' before] & insn & after & Hcode & Hbefore & Hinsn).
        -- injection Hcode as -> ->. congruence.
        -- injection Hcode as -> ->. apply Forall_cons in Hbefore as [? _].
           congruence.
    + rewrite IH. split.
      * intros (before & insn & after & -> & Hbefore & Hinsn).
        exists (i :: before), insn, after. repeat split; [|done].
        by constructor.
      * intros ([|i' before] & insn & after & Hcode & Hbefore & Hinsn).
        -- injection Hcode as -> ->. congruence.
        -- injection Hcode as -> ->. apply Forall_cons in Hbefore as [_ ?].
           by exists before, insn, after.
Qed.

Lemma first_error_None check_instruction c code :
  first_error check_instruction c code = None ↔
  Forall (λ i, check_instruction c i = None) code.
Proof.
  induction code as [|i rest IH]; simpl.
  - split; [constructor | done].
  - destruct (check_instruction c i) as [m|] eqn:Hi.
    + split; [done|]. intros [? _]%Forall_cons. congruence.
    + rewrite IH. split; [by constructor | by intros [_ ?]%Forall_cons].
Qed.

(** C9. On a checker on which [run()] has not completed, [good()],
    [fail()] and [what()] fail the assertion of [check_completion], with a
    text that names the method. Once [run()] has completed, [good()] and
    [fail()] return complementary booleans; [what()] returns the
    description of the first type error of the body, [good()] being false
    then, or exactly "OK", [good()] being true, when no instruction has a
    type error; and a second [run()] changes nothing. *)
Theorem checker_completion_protocol check_instruction c :
  pending c →
  let name := get_deobfuscated_name (m_dex_method c) in
  let text :=
    "The type checker did not run on method " ++ name ++ "." ++ newline in
  let code := default [] (get_code (m_dex_method c)) in
  let c' := run check_instruction c in
  (good c = AssertionFailure text ∧
   fail c = AssertionFailure text ∧
   what c = AssertionFailure text) ∧
  (∃ b, good c' = Ok b ∧ fail c' = Ok (negb b)) ∧
  (Forall (λ insn, check_instruction c insn = None) code →
     what c' = Ok "OK" ∧ good c' = Ok true ∧ fail c' = Ok false) ∧
  (∀ before insn after msg,
     code = app before (insn :: after) →
     Forall (λ i, check_instruction c i = None) before →
     check_instruction c insn = Some msg →
     what c' = Ok msg ∧ good c' = Ok false ∧ fail c' = Ok true) ∧
  run check_instruction c' = c'.
Proof.
  intros Hpending name text code c'.
  destruct (pending_inv c Hpending) as (Hc & Hg & Hw).
  assert (m_complete c' = true) as Hc'.
  { subst c'. unfold run. rewrite Hc. by destruct (first_error _ _ _). }
  split; [|split; [|split; [|split]]].
  - unfold good, fail, what, check_completion. by rewrite Hc.
  - exists (m_good c'). unfold good, fail, check_completion. by rewrite Hc'.
  - intros Hall. apply first_error_None in Hall.
    subst c' code. unfold good, fail, what, check_completion, run.
    rewrite Hc, Hall. simpl. by rewrite Hg, Hw.
  - intros before insn after msg Hcode Hbefore Hinsn.
    assert (first_error check_instruction c code = Some msg) as Hfirst
      by (apply first_error_Some; eauto 10).
    subst c' code. unfold good, fail, what, check_completion, run.
    by rewrite Hc, Hfirst.
  - unfold run at 1. by rewrite Hc'.
Qed.

End checker.

Lemma checker_completion_protocol_witness :
  IRTypeChecker.what
    (IRTypeChecker.verify_moves
       (IRTypeChecker.new TestScope.direct_caller false))
  = AssertionFailure
      ("The type checker did not run on method LCaller;.foo:(LBase;)V."
         ++ IRTypeChecker.newline) ∧
  IRTypeChecker.what
    (IRTypeChecker.run TestScope.no_invoke_direct
       (IRTypeChecker.verify_moves
          (IRTypeChecker.new TestScope.direct_caller false)))
  = Ok "invoke-direct is not expected" ∧
  IRTypeChecker.what
    (IRTypeChecker.run TestScope.no_invoke_direct
       (IRTypeChecker.verify_moves
          (IRTypeChecker.new TestScope.super_caller false)))
  = Ok "OK".
Proof.
  destruct (checker_completion_protocol TestScope.no_invoke_direct
              (IRTypeChecker.verify_moves
                 (IRTypeChecker.new TestScope.direct_caller false))
              (IRTypeChecker.pending_verify_moves _
                 (IRTypeChecker.pending_new _ _)))
    as ((_ & _ & Hbefore) & _ & _ & Herror & _).
  destruct (checker_completion_protocol TestScope.no_invoke_direct
              (IRTypeChecker.verify_moves
                 (IRTypeChecker.new TestScope.super_caller false))
              (IRTypeChecker.pending_verify_moves _
                 (IRTypeChecker.pending_new _ _)))
    as (_ & _ & Hok & _).
  split; [exact Hbefore|]. split.
  - exact (proj1 (Herror [] _ [] _ eq_refl (Forall_nil_2 _) eq_refl)).
  - refine (proj1 (Hok _)). repeat constructor.
Defined.

(** * Further properties of the pass *)

(** ** The list of excluded externals *)

Lemma prefix_app excluded name :
  String.prefix excluded name = true ↔ ∃ rest, name = excluded ++ rest.
Proof.
  revert name. induction excluded as [|a excluded IH]; intros name; simpl.
  - split; [intros _; by exists name | by destruct name].
  - destruct name as [|b name]; [split; [done | by intros [rest [=]]]|].
    simpl. destruct (Ascii.ascii_dec a b) as [->|Hne].
    + rewrite IH. split.
      * intros [rest ->]. by exists rest.
      * intros [rest [= ->]]. by exists rest.
    + split; [done|]. intros [rest [= -> _]]. done.
Qed.

(** X1. [is_excluded_external] answers true exactly when the name is one of
    the listed strings followed by anything; so no name is excluded by the
    empty list, every name is excluded once the empty string is listed, and
    appending lists excludes what either excludes. *)
Theorem is_excluded_external_iff excluded_externals name :
  (is_excluded_external excluded_externals name = true ↔
   ∃ excluded rest, excluded ∈ excluded_externals ∧ name = excluded ++ rest) ∧
  is_excluded_external [] name = false ∧
  ("" ∈ excluded_externals → is_excluded_external excluded_externals name = true) ∧
  (∀ more,
     is_excluded_external (app excluded_externals more) name
     = is_excluded_external excluded_externals name
       || is_excluded_external more name).
Proof.
  assert (Hiff : ∀ l,
    is_excluded_external l name = true ↔
    ∃ excluded rest, excluded ∈ l ∧ name = excluded ++ rest).
  { intros l. rewrite is_excluded_external_true. split.
    - intros (excluded & Hin & [rest ->]%prefix_app). by exists excluded, rest.
    - intros (excluded & rest & Hin & ->). exists excluded. split; [done|].
      apply prefix_app. by exists rest. }
  split; [apply Hiff|]. split; [done|]. split.
  - intros Hin. apply Hiff. by exists "", name.
  - intros more. induction excluded_externals as [|p l IH]; simpl; [done|].
    by destruct (String.prefix p name).
Qed.

Lemma is_excluded_external_iff_witness :
  is_excluded_external ["Lcom/foo/"; ""] "Landroid/os/Build;.get:()V" = true.
Proof.
  refine (proj1 (proj2 (proj2 (is_excluded_external_iff ["Lcom/foo/"; ""]
            "Landroid/os/Build;.get:()V"))) _).
  apply list_elem_of_further, list_elem_of_here.
Defined.

(** ** What [get_inferred_method_def] returns *)

Section inferred.
Context {collab : Collaborators}.

(** X2. Whatever [get_inferred_method_def] returns is the virtual
    resolution of the callee's name and proto from the inferred class, is a
    definition, is accessible from the caller and, if its class is external,
    has a name that none of the excluded prefixes starts. The answer does
    not depend on [is_support_lib], which the function never reads. *)
Theorem get_inferred_method_def_sound cs caller excluded_externals
    is_support_lib callee inferred_type :
  (∀ other,
     get_inferred_method_def cs caller excluded_externals other callee
       inferred_type
     = get_inferred_method_def cs caller excluded_externals is_support_lib
         callee inferred_type) ∧
  (∀ resolved,
     get_inferred_method_def cs caller excluded_externals is_support_lib
       callee inferred_type = Some resolved →
     resolve_method_in cs (type_class cs inferred_type) (mref_name callee)
       (mref_proto callee) MS_Virtual = Some resolved ∧
     mref_is_def resolved = true ∧
     can_access cs caller resolved = true ∧
     (∀ cls excluded,
        type_class cs (mref_class resolved) = Some cls →
        cls_is_external cls = true →
        excluded ∈ excluded_externals →
        String.prefix excluded (show resolved) = false)).
Proof.
  split; [done|]. intros resolved Hdef.
  apply get_inferred_method_def_Some in Hdef as (Hres & Hisdef & Hno & Hacc).
  repeat split; try done. intros cls excluded Hcls Hext Hin.
  specialize (Hno cls Hcls Hext).
  destruct (String.prefix excluded (show resolved)) eqn:Hp; [|done].
  assert (is_excluded_external excluded_externals (show resolved) = true)
    by (apply is_excluded_external_true; eauto).
  congruence.
Qed.

(** X3. [try_desuperify] leaves the method reference and the sources of the
    instruction, and every counter but [num_invoke_super_removed], as they
    were; it changes the opcode of no instruction but an [invoke-super]; and
    running it again on what it returned changes nothing and counts
    nothing. *)
Theorem try_desuperify_frame cs caller insn stats insn1 stats1 :
  try_desuperify cs caller insn stats = Ok (insn1, stats1) →
  insn_ref insn1 = insn_ref insn ∧
  insn_srcs insn1 = insn_srcs insn ∧
  (insn_opcode insn ≠ OPCODE_INVOKE_SUPER → insn1 = insn ∧ stats1 = stats) ∧
  num_mref_resolved stats1 = num_mref_resolved stats ∧
  num_fref_resolved stats1 = num_fref_resolved stats ∧
  num_invoke_virtual_refined stats1 = num_invoke_virtual_refined stats ∧
  num_invoke_interface_replaced stats1 = num_invoke_interface_replaced stats ∧
  rtype_candidates stats1 = rtype_candidates stats ∧
  try_desuperify cs caller insn1 stats1 = Ok (insn1, stats1).
Proof.
  intros Hrun.
  destruct (try_desuperify_inv _ _ _ _ _ _ Hrun) as [[-> ->] | (Hop & -> & ->)].
  - repeat split; done.
  - repeat split; done.
Qed.

End inferred.

Lemma get_inferred_method_def_sound_witness :
  mref_is_def TestScope.Derived_m = true ∧
  can_access (Collaborators := TestScope.base_to_derived) TestScope.classes
    TestScope.caller TestScope.Derived_m = true.
Proof.
  destruct (proj2 (get_inferred_method_def_sound
                     (collab := TestScope.base_to_derived) TestScope.classes
                     TestScope.caller ["Landroid/"] false TestScope.Base_m
                     "LDerived;") TestScope.Derived_m eq_refl)
    as (_ & Hdef & Hacc & _).
  exact (conj Hdef Hacc).
Defined.

Lemma try_desuperify_frame_witness :
  try_desuperify (collab := TestScope.final_super) TestScope.classes
    TestScope.caller
    (TestScope.invoke OPCODE_INVOKE_VIRTUAL TestScope.Base_m)
    (incr_num_invoke_super_removed RefStats_init)
  = Ok (TestScope.invoke OPCODE_INVOKE_VIRTUAL TestScope.Base_m,
        incr_num_invoke_super_removed RefStats_init).
Proof.
  exact (proj2 (proj2 (proj2 (proj2 (proj2 (proj2 (proj2 (proj2
    (try_desuperify_frame (collab := TestScope.final_super) TestScope.classes
       TestScope.caller
       (TestScope.invoke OPCODE_INVOKE_SUPER TestScope.Base_m) RefStats_init
       (TestScope.invoke OPCODE_INVOKE_VIRTUAL TestScope.Base_m)
       (incr_num_invoke_super_removed RefStats_init) eq_refl))))))))).
Defined.

(** ** What [resolve_refs] changes *)

Lemma only_promotes_refl (cs : ClassStore) : only_promotes cs cs.
Proof. intros t. destruct (cs !! t); [by left | done]. Qed.

Lemma only_promotes_trans (cs1 cs2 cs3 : ClassStore) :
  only_promotes cs1 cs2 → only_promotes cs2 cs3 → only_promotes cs1 cs3.
Proof.
  intros H12 H23 t. specialize (H12 t). specialize (H23 t).
  destruct (cs1 !! t) as [ci|]; [|by rewrite H12 in H23].
  destruct H12 as [H12 | [Hext H12]]; rewrite H12 in H23.
  - done.
  - right. split; [done|]. by destruct H23 as [? | [_ ?]].
Qed.

Lemma only_promotes_set_public (cs : ClassStore) t cls :
  type_class cs t = Some cls → cls_is_external cls = false →
  only_promotes cs (set_public cs cls).
Proof.
  rewrite type_class_Some. intros (ci & Hci & ->) Hext t'.
  unfold set_public. simpl.
  destruct (decide (t = t')) as [<-|Hne].
  - rewrite Hci, lookup_alter_eq, Hci. by right.
  - rewrite lookup_alter_ne by done. destruct (cs !! t'); [by left | done].
Qed.

Section resolve_refs_facts.
Context {collab : Collaborators}.

(** The outcome of [resolve_field_refs], case by case. *)
Lemma resolve_field_refs_inv cs insn field_search stats cs' insn' stats' :
  resolve_field_refs cs insn field_search stats = Ok (cs', insn', stats') →
  (cs' = cs ∧ insn' = insn ∧ stats' = stats) ∨
  ∃ fref real_ref cls,
    get_field insn = Ok fref ∧
    field_conditions cs field_search fref real_ref ∧
    type_class cs (fref_class real_ref) = Some cls ∧
    cs' = (if negb (is_public cls) && negb (cls_is_external cls)
           then set_public cs cls else cs) ∧
    insn' = set_field insn real_ref ∧
    stats' = incr_num_fref_resolved stats.
Proof.
  unfold resolve_field_refs.
  destruct (get_field insn) as [fref| | |] eqn:Hget; simpl; try done.
  destruct (fref_is_def fref) eqn:Hdef; [intros [= <- <- <-]; by left|].
  destruct (resolve_field cs fref field_search) as [real_ref|] eqn:Hres;
    [|intros [= <- <- <-]; by left].
  destruct (fref_is_external real_ref) eqn:Hext; simpl;
    [intros [= <- <- <-]; by left|].
  case_bool_decide as Hsame; simpl; [intros [= <- <- <-]; by left|].
  destruct (type_class cs (fref_class real_ref)) as [cls|] eqn:Hcls; [|done].
  intros Hrun. right. exists fref, real_ref, cls.
  split; [done|]. split; [done|]. split; [done|].
  destruct (is_public cls), (cls_is_external cls); simpl in *;
    by injection Hrun as <- <- <-.
Qed.

(** X4. A field access is rebound only from a reference that is not a
    definition to the field that the lookup finds for it, which is never
    external (no option of the pass lets a field be bound to an external
    definition) and whose class is loaded; the opcode and the sources of
    the instruction are kept, and [num_fref_resolved] alone goes up. *)
Theorem field_rewrites_are_internal cs insn field_search stats cs' insn' stats' :
  resolve_field_refs cs insn field_search stats = Ok (cs', insn', stats') →
  insn_opcode insn' = insn_opcode insn ∧
  insn_srcs insn' = insn_srcs insn ∧
  (insn' = insn → cs' = cs ∧ stats' = stats) ∧
  (insn' ≠ insn →
     ∃ fref real_ref,
       get_field insn = Ok fref ∧
       get_field insn' = Ok real_ref ∧
       fref_is_def fref = false ∧
       resolve_field cs fref field_search = Some real_ref ∧
       fref_is_external real_ref = false ∧
       real_ref ≠ fref ∧
       is_Some (type_class cs (fref_class real_ref)) ∧
       stats' = incr_num_fref_resolved stats).
Proof.
  intros Hrun.
  destruct (resolve_field_refs_inv _ _ _ _ _ _ _ Hrun)
    as [(-> & -> & ->) |
        (fref & real_ref & cls & Hget & (Hdef & Hres & Hext & Hne) & Hcls
         & -> & -> & ->)].
  - by repeat split.
  - split; [done|]. split; [done|]. split.
    + intros Heq. by destruct (set_field_neq _ _ _ Hget Hne).
    + intros _. exists fref, real_ref. by rewrite Hcls.
Qed.

(** X5. When [resolve_method_refs] rewrites an invoke, the class of the
    new target is loaded and is public in the class store it leaves, every
    other class is as it was, the opcode and the sources of the
    instruction are kept, and [num_mref_resolved] alone goes up. *)
Theorem method_rewrite_target_is_public this cs caller insn stats
    cs' insn' stats' :
  resolve_method_refs this cs caller insn stats = Ok (cs', insn', stats') →
  insn_opcode insn' = insn_opcode insn ∧
  insn_srcs insn' = insn_srcs insn ∧
  (insn' = insn → cs' = cs ∧ stats' = stats) ∧
  (insn' ≠ insn →
     ∃ mdef cls',
       get_method insn' = Ok mdef ∧
       type_class cs' (mref_class mdef) = Some cls' ∧
       is_public cls' = true ∧
       (∀ t, t ≠ mref_class mdef → cs' !! t = cs !! t) ∧
       stats' = incr_num_mref_resolved stats).
Proof.
  intros Hrun.
  destruct (get_method insn) as [mref| | |] eqn:Hget;
    try (unfold resolve_method_refs, has_method in Hrun;
         unfold get_method in Hget;
         destruct (insn_ref insn); simpl in Hrun; congruence).
  destruct (resolve_method_refs_inv _ _ _ _ _ _ _ Hget Hrun)
    as [[= -> -> ->] |
        (mdef & cls & Hres & Hne & Hgate & Hcls & Hhidden & [= -> -> ->])].
  - by repeat split.
  - split; [done|]. split; [done|]. split.
    + intros Heq. by destruct (set_method_neq _ _ _ Hget Hne).
    + intros _. exists mdef.
      destruct (is_public cls) eqn:Hpub; simpl.
      * exists cls. by repeat split.
      * exists (mkDexClass (mref_class mdef) (make_public (cls_info cls))).
        split; [done|]. split; [by apply type_class_set_public|].
        split; [done|]. split; [|done].
        intros t Hne'. unfold set_public.
        apply type_class_Some in Hcls as (ci & _ & ->). simpl.
        by rewrite lookup_alter_ne.
Qed.

Lemma resolve_refs_insn_only_promotes this cs method insn stats
    cs' insn' stats' :
  resolve_refs_insn this cs method insn stats = Ok (cs', insn', stats') →
  only_promotes cs cs'.
Proof.
  assert (Hfield : ∀ field_search,
    resolve_field_refs cs insn field_search stats = Ok (cs', insn', stats') →
    only_promotes cs cs').
  { intros field_search Hrun.
    destruct (resolve_field_refs_inv _ _ _ _ _ _ _ Hrun)
      as [(-> & _) | (fref & real_ref & cls & _ & _ & Hcls & -> & _)];
      [apply only_promotes_refl|].
    destruct (is_public cls); simpl; [apply only_promotes_refl|].
    destruct (cls_is_external cls) eqn:Hext; simpl;
      [apply only_promotes_refl|].
    by apply (only_promotes_set_public cs (fref_class real_ref)). }
  assert (Hmethod :
    resolve_method_refs this cs method insn stats = Ok (cs', insn', stats') →
    only_promotes cs cs').
  { intros Hrun.
    destruct (get_method insn) as [mref| | |] eqn:Hget;
      try (unfold resolve_method_refs, has_method in Hrun;
           unfold get_method in Hget;
           destruct (insn_ref insn); simpl in Hrun; congruence).
    destruct (resolve_method_refs_inv _ _ _ _ _ _ _ Hget Hrun)
      as [[= -> -> ->] |
          (mdef & cls & _ & _ & _ & Hcls & Hhidden & [= -> -> ->])];
      [apply only_promotes_refl|].
    destruct (is_public cls) eqn:Hpub; simpl; [apply only_promotes_refl|].
    rewrite andb_true_r in Hhidden.
    by apply (only_promotes_set_public cs (mref_class mdef)). }
  unfold resolve_refs_insn.
  destruct (insn_opcode insn); eauto;
    intros [= <- <- <-]; apply only_promotes_refl.
Qed.

Lemma resolve_refs_loop_only_promotes this method code :
  ∀ cs stats cs' code' stats',
    resolve_refs_loop this cs method code stats = Ok (cs', code', stats') →
    only_promotes cs cs'.
Proof.
  induction code as [|insn rest IH]; simpl; intros cs stats cs' code' stats'.
  - intros [= <- <- <-]. apply only_promotes_refl.
  - destruct (resolve_refs_insn this cs method insn stats)
      as [[[cs1 insn1] stats1]| | |] eqn:Hinsn; simpl; try done.
    destruct (resolve_refs_loop this cs1 method rest stats1)
      as [[[cs2 rest2] stats2]| | |] eqn:Hrest; simpl; try done.
    intros [= <- <- <-].
    eauto using only_promotes_trans, resolve_refs_insn_only_promotes.
Qed.

(** X6. Over a whole method, [resolve_refs] adds no class to the class
    store and removes none; it leaves every external class exactly as it
    was; and a class of the program is either left as it was or made
    public, its other flags being kept. *)
Theorem resolve_refs_only_promotes this cs method cs' method' stats :
  resolve_refs this cs method = Ok (cs', method', stats) →
  only_promotes cs cs' ∧
  (∀ t, is_Some (cs' !! t) ↔ is_Some (cs !! t)) ∧
  (∀ t ci, cs !! t = Some ci → ci_external ci = true → cs' !! t = Some ci) ∧
  (∀ t cls,
     type_class cs t = Some cls →
     ∃ cls',
       type_class cs' t = Some cls' ∧
       cls_is_external cls' = cls_is_external cls ∧
       is_interface cls' = is_interface cls ∧
       (is_public cls = true → is_public cls' = true)).
Proof.
  intros Hrun.
  assert (only_promotes cs cs') as Hle.
  { unfold resolve_refs in Hrun.
    destruct method as [m|]; [|injection Hrun as <- _ _; apply only_promotes_refl].
    destruct (get_code m) as [code|];
      [|injection Hrun as <- _ _; apply only_promotes_refl].
    destruct (resolve_refs_loop this cs (as_ref m) code RefStats_init)
      as [[[cs1 code1] stats1]| | |] eqn:Hloop; simpl in Hrun; try done.
    injection Hrun as <- _ _. eauto using resolve_refs_loop_only_promotes. }
  split; [done|]. split; [|split].
  - intros t. specialize (Hle t). destruct (cs !! t) as [ci|].
    + destruct Hle as [-> | [_ ->]]; split; eauto.
    + rewrite Hle. done.
  - intros t ci Hci Hext. specialize (Hle t). rewrite Hci in Hle.
    destruct Hle as [? | [? _]]; [done | congruence].
  - intros t cls (ci & Hci & ->)%type_class_Some. specialize (Hle t).
    rewrite Hci in Hle. unfold type_class.
    destruct Hle as [-> | [_ ->]]; simpl; eexists; (split; [done|]); done.
Qed.

End resolve_refs_facts.

Lemma field_rewrites_are_internal_witness :
  ∃ fref real_ref,
    get_field (TestScope.field_op OPCODE_IGET TestScope.Sub_f) = Ok fref ∧
    get_field (TestScope.field_op OPCODE_IGET TestScope.Derived_f)
      = Ok real_ref ∧
    fref_is_external real_ref = false.
Proof.
  destruct (field_rewrites_are_internal (collab := TestScope.program)
              TestScope.classes
              (TestScope.field_op OPCODE_IGET TestScope.Sub_f) FS_Instance
              RefStats_init
              (set_public TestScope.classes
                 (mkDexClass "LDerived;" TestScope.internal_hidden))
              (TestScope.field_op OPCODE_IGET TestScope.Derived_f)
              (incr_num_fref_resolved RefStats_init) eq_refl)
    as (_ & _ & _ & Hrewritten).
  destruct Hrewritten as (fref & real_ref & Hget & Hget' & _ & _ & Hext & _).
  - discriminate.
  - exists fref, real_ref. exact (conj Hget (conj Hget' Hext)).
Defined.

Lemma method_rewrite_target_is_public_witness :
  ∃ mdef cls',
    type_class
      (set_public TestScope.classes
         (mkDexClass "LDerived;" TestScope.internal_hidden))
      (mref_class mdef) = Some cls' ∧
    is_public cls' = true.
Proof.
  destruct (method_rewrite_target_is_public (collab := TestScope.program)
              (TestScope.pass false [] TestScope.sdk_none) TestScope.classes
              TestScope.caller
              (TestScope.invoke OPCODE_INVOKE_STATIC TestScope.Sub_m)
              RefStats_init
              (set_public TestScope.classes
                 (mkDexClass "LDerived;" TestScope.internal_hidden))
              (TestScope.invoke OPCODE_INVOKE_STATIC TestScope.Derived_m)
              (incr_num_mref_resolved RefStats_init) eq_refl)
    as (_ & _ & _ & Hrewritten).
  destruct Hrewritten as (mdef & cls' & _ & Hcls & Hpub & _).
  - discriminate.
  - exists mdef, cls'. exact (conj Hcls Hpub).
Defined.

Lemma resolve_refs_only_promotes_witness :
  ∃ cs' method' stats,
    resolve_refs (collab := TestScope.program)
      (TestScope.pass false [] TestScope.sdk_none) TestScope.classes
      (Some TestScope.foo) = Ok (cs', method', stats) ∧
    cs' !! "Landroid/Hidden;" = Some TestScope.external_hidden.
Proof.
  eexists _, _, _. split; [reflexivity|].
  refine (proj1 (proj2 (proj2 (resolve_refs_only_promotes
            (collab := TestScope.program)
            (TestScope.pass false [] TestScope.sdk_none) TestScope.classes
            (Some TestScope.foo) _ _ _ eq_refl)))
          "Landroid/Hidden;" TestScope.external_hidden eq_refl eq_refl).
Defined.

(** ** What [resolve_refs] counts *)

Lemma iter_size_t_incr (k : nat) : Nat.iter k size_t_incr 0 = size_t_of_nat k.
Proof.
  unfold size_t_of_nat. induction k as [|k IH]; [done|].
  rewrite Nat.iter_succ, IH. unfold size_t_incr.
  rewrite N.Div0.add_mod_idemp_l. f_equal. lia.
Qed.

Lemma iter_count (b : bool) (k : nat) (n : N) :
  Nat.iter ((if b then 1 else 0) + k) size_t_incr n
  = Nat.iter k size_t_incr (if b then size_t_incr n else n).
Proof.
  rewrite Nat.add_comm, Nat.iter_add. by destruct b.
Qed.

Lemma method_rewritten_same insn : method_rewritten insn insn = false.
Proof.
  unfold method_rewritten. destruct (insn_ref insn); try done.
  by rewrite bool_decide_eq_false_2 by (intros Hne; by apply Hne).
Qed.

Lemma field_rewritten_same insn : field_rewritten insn insn = false.
Proof.
  unfold field_rewritten. destruct (insn_ref insn); try done.
  by rewrite bool_decide_eq_false_2 by (intros Hne; by apply Hne).
Qed.

Section resolve_refs_counts.
Context {collab : Collaborators}.

(** The [switch] of [resolve_refs], by the kind of the opcode. *)
Lemma resolve_refs_insn_switch this cs method insn stats :
  resolve_refs_insn this cs method insn stats
  = match searched_as (insn_opcode insn) with
    | Some field_search => resolve_field_refs cs insn field_search stats
    | None =>
        if bool_decide
             (insn_opcode insn ∈
                [OPCODE_INVOKE_VIRTUAL; OPCODE_INVOKE_SUPER;
                 OPCODE_INVOKE_INTERFACE; OPCODE_INVOKE_STATIC])
        then resolve_method_refs this cs method insn stats
        else Ok (cs, insn, stats)
    end.
Proof. unfold resolve_refs_insn. by destruct (insn_opcode insn). Qed.

(** One turn of the loop of [resolve_refs], against the instruction it
    leaves. *)
Lemma resolve_refs_insn_step this cs method insn stats cs' insn' stats' :
  resolve_refs_insn this cs method insn stats = Ok (cs', insn', stats') →
  insn_opcode insn' = insn_opcode insn ∧
  insn_srcs insn' = insn_srcs insn ∧
  stats' = (if method_rewritten insn insn' then incr_num_mref_resolved stats
            else if field_rewritten insn insn'
                 then incr_num_fref_resolved stats
                 else stats) ∧
  (insn' ≠ insn →
     (field_rewritten insn insn' = true ∧
      is_Some (searched_as (insn_opcode insn))) ∨
     (method_rewritten insn insn' = true ∧
      insn_opcode insn ∈
        [OPCODE_INVOKE_VIRTUAL; OPCODE_INVOKE_SUPER; OPCODE_INVOKE_INTERFACE;
         OPCODE_INVOKE_STATIC])).
Proof.
  assert (Hsame : ∀ P Q : Prop,
    insn_opcode insn = insn_opcode insn ∧
    insn_srcs insn = insn_srcs insn ∧
    stats = (if method_rewritten insn insn then incr_num_mref_resolved stats
             else if field_rewritten insn insn
                  then incr_num_fref_resolved stats
                  else stats) ∧
    (insn ≠ insn → P ∨ Q)).
  { intros P Q. rewrite method_rewritten_same, field_rewritten_same.
    repeat split. intros Hne. by destruct Hne. }
  assert (Hfield : ∀ field_search,
    searched_as (insn_opcode insn) = Some field_search →
    resolve_field_refs cs insn field_search stats = Ok (cs', insn', stats') →
    insn_opcode insn' = insn_opcode insn ∧
    insn_srcs insn' = insn_srcs insn ∧
    stats' = (if method_rewritten insn insn' then incr_num_mref_resolved stats
              else if field_rewritten insn insn'
                   then incr_num_fref_resolved stats
                   else stats) ∧
    (insn' ≠ insn →
       (field_rewritten insn insn' = true ∧
        is_Some (searched_as (insn_opcode insn))) ∨
       (method_rewritten insn insn' = true ∧
        insn_opcode insn ∈
          [OPCODE_INVOKE_VIRTUAL; OPCODE_INVOKE_SUPER;
           OPCODE_INVOKE_INTERFACE; OPCODE_INVOKE_STATIC]))).
  { intros field_search Hsearch Hrun.
    destruct (resolve_field_refs_inv _ _ _ _ _ _ _ Hrun)
      as [(-> & -> & ->) |
          (fref & real_ref & cls & Hget & (_ & _ & _ & Hne) & _ & _ & -> & ->)];
      [apply Hsame|].
    apply get_field_Ok in Hget.
    assert (field_rewritten insn (set_field insn real_ref) = true) as Hf
      by (unfold field_rewritten; simpl; rewrite Hget;
          by apply bool_decide_eq_true_2).
    assert (method_rewritten insn (set_field insn real_ref) = false) as Hm
      by (unfold method_rewritten; by rewrite Hget).
    rewrite Hm, Hf. repeat split. intros _. left. by rewrite Hsearch. }
  assert (Hmethod :
    insn_opcode insn ∈
      [OPCODE_INVOKE_VIRTUAL; OPCODE_INVOKE_SUPER; OPCODE_INVOKE_INTERFACE;
       OPCODE_INVOKE_STATIC] →
    resolve_method_refs this cs method insn stats = Ok (cs', insn', stats') →
    insn_opcode insn' = insn_opcode insn ∧
    insn_srcs insn' = insn_srcs insn ∧
    stats' = (if method_rewritten insn insn' then incr_num_mref_resolved stats
              else if field_rewritten insn insn'
                   then incr_num_fref_resolved stats
                   else stats) ∧
    (insn' ≠ insn →
       (field_rewritten insn insn' = true ∧
        is_Some (searched_as (insn_opcode insn))) ∨
       (method_rewritten insn insn' = true ∧
        insn_opcode insn ∈
          [OPCODE_INVOKE_VIRTUAL; OPCODE_INVOKE_SUPER;
           OPCODE_INVOKE_INTERFACE; OPCODE_INVOKE_STATIC]))).
  { intros Hkind Hrun.
    destruct (get_method insn) as [mref| | |] eqn:Hget;
      try (unfold resolve_method_refs, has_method in Hrun;
           unfold get_method in Hget;
           destruct (insn_ref insn); simpl in Hrun; congruence).
    destruct (resolve_method_refs_inv _ _ _ _ _ _ _ Hget Hrun)
      as [[= -> -> ->] |
          (mdef & cls & _ & Hne & _ & _ & _ & [= -> -> ->])];
      [apply Hsame|].
    apply get_method_Ok in Hget.
    assert (method_rewritten insn (set_method insn mdef) = true) as Hm
      by (unfold method_rewritten; simpl; rewrite Hget;
          by apply bool_decide_eq_true_2).
    rewrite Hm. repeat split. intros _. by right. }
  rewrite resolve_refs_insn_switch.
  destruct (searched_as (insn_opcode insn)) as [field_search|] eqn:Hsearch;
    [by apply Hfield|].
  case_bool_decide as Hkind; [by apply Hmethod|].
  intros [= <- <- <-]. apply Hsame.
Qed.

Lemma resolve_refs_loop_counts this method code :
  ∀ cs stats cs' code' stats',
    resolve_refs_loop this cs method code stats = Ok (cs', code', stats') →
    num_mref_resolved stats'
      = Nat.iter (count_pairs method_rewritten code code') size_t_incr
          (num_mref_resolved stats) ∧
    num_fref_resolved stats'
      = Nat.iter (count_pairs field_rewritten code code') size_t_incr
          (num_fref_resolved stats) ∧
    num_invoke_virtual_refined stats' = num_invoke_virtual_refined stats ∧
    num_invoke_interface_replaced stats' = num_invoke_interface_replaced stats ∧
    num_invoke_super_removed stats' = num_invoke_super_removed stats ∧
    rtype_candidates stats' = rtype_candidates stats.
Proof.
  induction code as [|insn rest IH]; simpl; intros cs stats cs' code' stats'.
  - intros [= <- <- <-]. done.
  - destruct (resolve_refs_insn this cs method insn stats)
      as [[[cs1 insn1] stats1]| | |] eqn:Hinsn; simpl; try done.
    destruct (resolve_refs_loop this cs1 method rest stats1)
      as [[[cs2 rest2] stats2]| | |] eqn:Hrest; simpl; try done.
    intros [= <- <- <-].
    destruct (IH _ _ _ _ _ Hrest) as (-> & -> & -> & -> & -> & ->).
    destruct (resolve_refs_insn_step _ _ _ _ _ _ _ _ Hinsn)
      as (_ & _ & -> & Hkind).
    cbn [count_pairs]. rewrite !iter_count.
    destruct (method_rewritten insn insn1) eqn:Hm.
    + assert (field_rewritten insn insn1 = false) as ->; [|done].
      unfold method_rewritten in Hm. unfold field_rewritten.
      by destruct (insn_ref insn).
    + by destruct (field_rewritten insn insn1).
Qed.

Lemma resolve_refs_loop_shape this method code :
  ∀ cs stats cs' code' stats',
    resolve_refs_loop this cs method code stats = Ok (cs', code', stats') →
    Forall2
      (λ insn insn',
         insn_opcode insn' = insn_opcode insn ∧
         insn_srcs insn' = insn_srcs insn ∧
         (insn' ≠ insn →
            (field_rewritten insn insn' = true ∧
             is_Some (searched_as (insn_opcode insn))) ∨
            (method_rewritten insn insn' = true ∧
             insn_opcode insn ∈
               [OPCODE_INVOKE_VIRTUAL; OPCODE_INVOKE_SUPER;
                OPCODE_INVOKE_INTERFACE; OPCODE_INVOKE_STATIC])))
      code code'.
Proof.
  induction code as [|insn rest IH]; simpl; intros cs stats cs' code' stats'.
  - intros [= <- <- <-]. constructor.
  - destruct (resolve_refs_insn this cs method insn stats)
      as [[[cs1 insn1] stats1]| | |] eqn:Hinsn; simpl; try done.
    destruct (resolve_refs_loop this cs1 method rest stats1)
      as [[[cs2 rest2] stats2]| | |] eqn:Hrest; simpl; try done.
    intros [= <- <- <-]. constructor; [|eauto].
    destruct (resolve_refs_insn_step _ _ _ _ _ _ _ _ Hinsn)
      as (? & ? & _ & ?). done.
Qed.

(** X7. [resolve_refs] gives back the method it was given, with a body of
    the same length in which every instruction has the opcode and the
    sources it had. An instruction that differs from what it was is a field
    access whose field reference was replaced, or an invoke of kind
    virtual, super, interface or static whose method reference was
    replaced; nothing else is touched. A method without a body comes back
    as it is, with the class store and zeroed statistics. *)
Theorem resolve_refs_keeps_shape this cs m cs' method' stats :
  resolve_refs this cs (Some m) = Ok (cs', method', stats) →
  ∃ m',
    method' = Some m' ∧
    as_ref m' = as_ref m ∧
    get_deobfuscated_name m' = get_deobfuscated_name m ∧
    (get_code m = None → m' = m ∧ cs' = cs ∧ stats = RefStats_init) ∧
    length (default [] (get_code m')) = length (default [] (get_code m)) ∧
    Forall2
      (λ insn insn',
         insn_opcode insn' = insn_opcode insn ∧
         insn_srcs insn' = insn_srcs insn ∧
         (insn' ≠ insn →
            (field_rewritten insn insn' = true ∧
             is_Some (searched_as (insn_opcode insn))) ∨
            (method_rewritten insn insn' = true ∧
             insn_opcode insn ∈
               [OPCODE_INVOKE_VIRTUAL; OPCODE_INVOKE_SUPER;
                OPCODE_INVOKE_INTERFACE; OPCODE_INVOKE_STATIC])))
      (default [] (get_code m)) (default [] (get_code m')).
Proof.
  unfold resolve_refs. destruct (get_code m) as [code|] eqn:Hcode.
  - destruct (resolve_refs_loop this cs (as_ref m) code RefStats_init)
      as [[[cs1 code1] stats1]| | |] eqn:Hloop; simpl; try done.
    intros [= <- <- <-]. exists (set_code m code1).
    pose proof (resolve_refs_loop_shape _ _ _ _ _ _ _ _ Hloop) as Hshape.
    repeat split; try done. simpl. symmetry. by eapply Forall2_length.
  - intros [= <- <- <-]. exists m. rewrite Hcode. repeat split. constructor.
Qed.

(** X8. The statistics of [resolve_refs] count what it did: as [size_t]s,
    [num_mref_resolved] is the number of instructions of the body whose
    method reference was replaced and [num_fref_resolved] the number of
    those whose field reference was replaced; the three counters of the
    refinement are zero and no return type candidate is recorded. *)
Theorem resolve_refs_counts_rewrites this cs m cs' m' stats :
  resolve_refs this cs (Some m) = Ok (cs', Some m', stats) →
  counters stats
    = (size_t_of_nat
         (count_pairs method_rewritten (default [] (get_code m))
            (default [] (get_code m'))),
       size_t_of_nat
         (count_pairs field_rewritten (default [] (get_code m))
            (default [] (get_code m'))),
       0, 0, 0) ∧
  rtype_candidates stats = RtypeCandidates_empty.
Proof.
  unfold resolve_refs, counters. destruct (get_code m) as [code|] eqn:Hcode.
  - destruct (resolve_refs_loop this cs (as_ref m) code RefStats_init)
      as [[[cs1 code1] stats1]| | |] eqn:Hloop; simpl; try done.
    intros [= <- <- <-].
    destruct (resolve_refs_loop_counts _ _ _ _ _ _ _ _ Hloop)
      as (-> & -> & -> & -> & -> & ->).
    simpl. by rewrite !iter_size_t_incr.
  - intros [= <- <- <-]. by rewrite Hcode.
Qed.

End resolve_refs_counts.

Lemma resolve_refs_keeps_shape_witness :
  ∃ m',
    length (default [] (get_code m')) = length TestScope.body ∧
    as_ref m' = TestScope.caller.
Proof.
  destruct (resolve_refs_keeps_shape (collab := TestScope.program)
              (TestScope.pass false [] TestScope.sdk_none) TestScope.classes
              TestScope.foo _ _ _ eq_refl)
    as (m' & _ & Href & _ & _ & Hlen & _).
  exists m'. exact (conj Hlen Href).
Defined.

Lemma resolve_refs_counts_rewrites_witness :
  ∃ cs' m' stats,
    resolve_refs (collab := TestScope.program)
      (TestScope.pass false [] TestScope.sdk_none) TestScope.classes
      (Some TestScope.foo) = Ok (cs', Some m', stats) ∧
    counters stats = (3, 1, 0, 0, 0).
Proof.
  eexists _, _, _. split; [reflexivity|].
  exact (proj1 (resolve_refs_counts_rewrites (collab := TestScope.program)
                 (TestScope.pass false [] TestScope.sdk_none)
                 TestScope.classes TestScope.foo _ _ _ eq_refl)).
Defined.

(** ** What [refine_virtual_callsites] changes and counts *)

Lemma super_removed_same insn : super_removed insn insn = false.
Proof. unfold super_removed. by destruct (insn_opcode insn). Qed.

Lemma interface_replaced_same insn : interface_replaced insn insn = false.
Proof. unfold interface_replaced. by destruct (insn_opcode insn). Qed.

Lemma virtual_refined_same insn : virtual_refined insn insn = false.
Proof. unfold virtual_refined. by rewrite method_rewritten_same. Qed.

Section refinement_facts.
Context {collab : Collaborators}.

(** One turn of the loop of [refine_virtual_callsites] without
    [try_desuperify], against the instruction it leaves. *)
Lemma refine_only_step this cs method env is_support_lib specialize_rtype
    insn stats rtype_domain insn' stats' rtype_domain' :
  refine_virtual_callsites_insn this cs method env is_support_lib false
    specialize_rtype insn stats rtype_domain
    = Ok (insn', stats', rtype_domain') →
  insn_srcs insn' = insn_srcs insn ∧
  counters stats'
    = (num_mref_resolved stats, num_fref_resolved stats,
       (if virtual_refined insn insn'
        then size_t_incr (num_invoke_virtual_refined stats)
        else num_invoke_virtual_refined stats),
       (if interface_replaced insn insn'
        then size_t_incr (num_invoke_interface_replaced stats)
        else num_invoke_interface_replaced stats),
       num_invoke_super_removed stats) ∧
  super_removed insn insn' = false ∧
  (insn' = insn ∨
   ((insn_opcode insn = OPCODE_INVOKE_VIRTUAL ∨
     insn_opcode insn = OPCODE_INVOKE_INTERFACE) ∧
    method_rewritten insn insn' = true ∧
    (insn_opcode insn' = insn_opcode insn ∨
     insn_opcode insn' = OPCODE_INVOKE_VIRTUAL) ∧
    refined_target cs method insn')).
Proof.
  intros Hrun.
  destruct (refine_virtual_callsites_insn_inv _ _ _ _ _ _ _ _ _ _ _ _ Hrun)
    as [(-> & Hstats & _) |
        (mref & def_meth & def_cls & Hcond & _ & -> & -> & _)].
  - rewrite Hstats. unfold counters. simpl.
    rewrite virtual_refined_same, interface_replaced_same, super_removed_same.
    repeat split. by left.
  - destruct Hcond as (callee & this_reg & e & dex_type & Hop & Hget & _ & _
                       & _ & _ & Hdef & Hcls & Hne).
    apply get_inferred_method_def_Some in Hdef as (_ & Hisdef & _ & Hacc).
    apply get_method_Ok in Hget.
    assert (∀ insn', insn_ref insn' = MethodRef def_meth →
                     method_rewritten insn insn' = true) as Hrewritten.
    { intros i Hi. unfold method_rewritten. rewrite Hget, Hi.
      apply bool_decide_eq_true_2. congruence. }
    assert (∀ insn', insn_ref insn' = MethodRef def_meth →
                     refined_target cs method insn') as Htarget.
    { intros i Hi. exists def_meth. rewrite Hcls.
      split; [by apply get_method_Ok|]. split; [done|]. split; [done|]. eauto. }
    unfold refined_insn, refined_stats, counters, virtual_refined,
      interface_replaced, super_removed.
    destruct Hop as [Hop | Hop]; rewrite Hop; simpl.
    + rewrite Hop. simpl. rewrite Hrewritten by done.
      repeat split. right. repeat split; eauto.
    + destruct (is_interface def_cls); simpl.
      * rewrite Hop. simpl. rewrite Hrewritten by done.
        repeat split. right. repeat split; eauto.
      * rewrite Hrewritten by done.
        repeat split. right. repeat split; eauto.
Qed.

(** One turn of the loop of [refine_virtual_callsites], against the
    instruction it leaves. *)
Lemma refine_step this cs method env is_support_lib desuperify
    specialize_rtype insn stats rtype_domain insn' stats' rtype_domain' :
  refine_virtual_callsites_insn this cs method env is_support_lib desuperify
    specialize_rtype insn stats rtype_domain
    = Ok (insn', stats', rtype_domain') →
  insn_srcs insn' = insn_srcs insn ∧
  counters stats'
    = (num_mref_resolved stats, num_fref_resolved stats,
       (if virtual_refined insn insn'
        then size_t_incr (num_invoke_virtual_refined stats)
        else num_invoke_virtual_refined stats),
       (if interface_replaced insn insn'
        then size_t_incr (num_invoke_interface_replaced stats)
        else num_invoke_interface_replaced stats),
       (if super_removed insn insn'
        then size_t_incr (num_invoke_super_removed stats)
        else num_invoke_super_removed stats)) ∧
  (desuperify = false → super_removed insn insn' = false) ∧
  (insn_opcode insn' = insn_opcode insn ∨
   insn_opcode insn' = OPCODE_INVOKE_VIRTUAL ∧
   (insn_opcode insn = OPCODE_INVOKE_SUPER ∨
    insn_opcode insn = OPCODE_INVOKE_INTERFACE)) ∧
  (insn_ref insn' = insn_ref insn ∨
   method_rewritten insn insn' = true ∧ refined_target cs method insn') ∧
  (insn_opcode insn ∉
     [OPCODE_INVOKE_VIRTUAL; OPCODE_INVOKE_SUPER; OPCODE_INVOKE_INTERFACE] →
   insn' = insn).
Proof.
  intros Hrun.
  assert (∃ insn1 stats1,
    (insn1 = insn ∧ stats1 = stats ∨
     desuperify = true ∧ insn_opcode insn = OPCODE_INVOKE_SUPER ∧
     insn1 = set_opcode insn OPCODE_INVOKE_VIRTUAL ∧
     stats1 = incr_num_invoke_super_removed stats) ∧
    refine_virtual_callsites_insn this cs method env is_support_lib false
      specialize_rtype insn1 stats1 rtype_domain
      = Ok (insn', stats', rtype_domain'))
    as (insn1 & stats1 & Hsuper & Hrun1).
  { destruct desuperify; [|exists insn, stats; eauto].
    rewrite refine_virtual_callsites_insn_desuperify in Hrun.
    destruct (try_desuperify cs method insn stats)
      as [[insn1 stats1]| | |] eqn:Hsuper; try done.
    exists insn1, stats1.
    destruct (try_desuperify_inv _ _ _ _ _ _ Hsuper)
      as [[-> ->] | (Hop & -> & ->)].
    - split; [by left | exact Hrun].
    - split; [right; by repeat split | exact Hrun]. }
  destruct (refine_only_step _ _ _ _ _ _ _ _ _ _ _ _ Hrun1)
    as (Hsrcs & Hcount & Hnosuper & Hcase).
  destruct Hsuper as [[-> ->] | (-> & Hop & -> & ->)].
  - rewrite Hnosuper. split; [done|]. split; [done|]. split; [done|].
    destruct Hcase as [-> | (Hop & Hrewritten & Hop' & Htarget)].
    + split; [by left|]. split; [by left|]. done.
    + split; [|split].
      * destruct Hop' as [? | ?]; [by left|].
        destruct Hop as [Hop | Hop]; [left; congruence|].
        right. split; [done | by right].
      * by right.
      * intros Hnot. exfalso. apply Hnot.
        destruct Hop as [-> | ->]; rewrite !elem_of_cons; eauto.
  - simpl in *.
    assert (interface_replaced insn insn' = false) as Hnoitf
      by (unfold interface_replaced; by rewrite Hop).
    assert (method_rewritten insn insn'
            = method_rewritten (set_opcode insn OPCODE_INVOKE_VIRTUAL) insn')
      as Hsame by done.
    assert (virtual_refined insn insn'
            = virtual_refined (set_opcode insn OPCODE_INVOKE_VIRTUAL) insn')
      as Hrefined.
    { unfold virtual_refined. rewrite Hnoitf, Hsame.
      unfold interface_replaced. simpl. by rewrite andb_true_r. }
    assert (insn_opcode insn' = OPCODE_INVOKE_VIRTUAL) as Hvirtual.
    { destruct Hcase as [-> | (_ & _ & [-> | ->] & _)]; done. }
    assert (super_removed insn insn' = true) as Hremoved
      by (unfold super_removed; by rewrite Hop, Hvirtual).
    rewrite Hremoved, Hnoitf, Hrefined. split; [done|]. split.
    { rewrite Hcount. unfold counters, interface_replaced. simpl. done. }
    split; [done|]. split; [right; eauto|]. split.
    + destruct Hcase as [-> | (_ & Hrewritten & _ & Htarget)]; [by left|].
      right. by rewrite Hsame.
    + intros Hnot. exfalso. apply Hnot. rewrite Hop, !elem_of_cons. eauto.
Qed.

Lemma refine_loop_facts this cs method envs is_support_lib desuperify
    specialize_rtype code :
  ∀ i stats rtype_domain code' stats' rtype_domain',
    refine_virtual_callsites_loop this cs method envs is_support_lib desuperify
      specialize_rtype i code stats rtype_domain
      = Ok (code', stats', rtype_domain') →
    counters stats'
      = (num_mref_resolved stats, num_fref_resolved stats,
         Nat.iter (count_pairs virtual_refined code code') size_t_incr
           (num_invoke_virtual_refined stats),
         Nat.iter (count_pairs interface_replaced code code') size_t_incr
           (num_invoke_interface_replaced stats),
         Nat.iter (count_pairs super_removed code code') size_t_incr
           (num_invoke_super_removed stats)) ∧
    (desuperify = false → count_pairs super_removed code code' = 0%nat) ∧
    Forall2
      (λ insn insn',
         insn_srcs insn' = insn_srcs insn ∧
         (insn_opcode insn' = insn_opcode insn ∨
          insn_opcode insn' = OPCODE_INVOKE_VIRTUAL ∧
          (insn_opcode insn = OPCODE_INVOKE_SUPER ∨
           insn_opcode insn = OPCODE_INVOKE_INTERFACE)) ∧
         (insn_ref insn' = insn_ref insn ∨
          method_rewritten insn insn' = true ∧ refined_target cs method insn') ∧
         (insn_opcode insn ∉
            [OPCODE_INVOKE_VIRTUAL; OPCODE_INVOKE_SUPER;
             OPCODE_INVOKE_INTERFACE] →
          insn' = insn))
      code code'.
Proof.
  induction code as [|insn rest IH]; simpl;
    intros i stats rtype_domain code' stats' rtype_domain'.
  - intros [= <- <- <-]. repeat split. constructor.
  - destruct (refine_virtual_callsites_insn this cs method (envs i)
                is_support_lib desuperify specialize_rtype insn stats
                rtype_domain)
      as [[[insn1 stats1] rd1]| | |] eqn:Hinsn; simpl; try done.
    destruct (refine_virtual_callsites_loop this cs method envs
                is_support_lib desuperify specialize_rtype (S i) rest stats1
                rd1)
      as [[[rest2 stats2] rd2]| | |] eqn:Hrest; simpl; try done.
    intros [= <- <- <-].
    destruct (IH _ _ _ _ _ _ Hrest) as (Hcount & Hnosuper & Hall).
    destruct (refine_step _ _ _ _ _ _ _ _ _ _ _ _ _ Hinsn)
      as (Hsrcs & Hcount1 & Hnosuper1 & Hop & Href & Hother).
    split; [|split].
    + rewrite Hcount. cbn [count_pairs]. rewrite !iter_count.
      unfold counters in Hcount1. by injection Hcount1 as -> -> -> -> ->.
    + intros ->. cbn [count_pairs].
      by rewrite (Hnosuper1 eq_refl), (Hnosuper eq_refl).
    + by constructor.
Qed.

(** X9. [refine_virtual_callsites] does not touch the class store, and
    gives back the method it was given with a body of the same length. In
    it every instruction has the sources it had; its opcode is the one it
    had, or [invoke-virtual] in place of [invoke-super] or
    [invoke-interface]; only an invoke of kind virtual, super or interface
    can differ from what it was; and a method reference that was replaced
    now names a definition that is accessible from the method and whose
    class is loaded. *)
Theorem refine_virtual_callsites_keeps_shape this cs m desuperify
    specialize_rtype method' stats :
  refine_virtual_callsites this cs (Some m) desuperify specialize_rtype
    = Ok (method', stats) →
  ∃ m',
    method' = Some m' ∧
    as_ref m' = as_ref m ∧
    get_deobfuscated_name m' = get_deobfuscated_name m ∧
    (get_code m = None → m' = m ∧ stats = RefStats_init) ∧
    length (default [] (get_code m')) = length (default [] (get_code m)) ∧
    Forall2
      (λ insn insn',
         insn_srcs insn' = insn_srcs insn ∧
         (insn_opcode insn' = insn_opcode insn ∨
          insn_opcode insn' = OPCODE_INVOKE_VIRTUAL ∧
          (insn_opcode insn = OPCODE_INVOKE_SUPER ∨
           insn_opcode insn = OPCODE_INVOKE_INTERFACE)) ∧
         (insn_ref insn' = insn_ref insn ∨
          method_rewritten insn insn' = true ∧
          refined_target cs (as_ref m) insn') ∧
         (insn_opcode insn ∉
            [OPCODE_INVOKE_VIRTUAL; OPCODE_INVOKE_SUPER;
             OPCODE_INVOKE_INTERFACE] →
          insn' = insn))
      (default [] (get_code m)) (default [] (get_code m')).
Proof.
  unfold refine_virtual_callsites. destruct (get_code m) as [code|] eqn:Hcode.
  - destruct (refine_virtual_callsites_loop _ _ _ _ _ _ _ _ _ _ _)
      as [[[code1 stats1] rd1]| | |] eqn:Hloop; simpl; try done.
    intros [= <- <-]. exists (set_code m code1).
    destruct (refine_loop_facts _ _ _ _ _ _ _ _ _ _ _ _ _ _ Hloop)
      as (_ & _ & Hshape).
    repeat split; try done. simpl. symmetry. by eapply Forall2_length.
  - intros [= <- <-]. exists m. rewrite Hcode. repeat split. constructor.
Qed.

(** X10. The statistics of [refine_virtual_callsites] count what it did:
    as [size_t]s, [num_invoke_super_removed] is the number of
    [invoke-super]s of the body that are now [invoke-virtual],
    [num_invoke_interface_replaced] the number of [invoke-interface]s that
    are now [invoke-virtual], and [num_invoke_virtual_refined] the number
    of instructions whose method reference was replaced and that are not
    an [invoke-interface] turned into [invoke-virtual]. So an
    [invoke-super] that was made an [invoke-virtual] and then refined in
    the same turn of the loop is counted twice, as a removed
    [invoke-super] and as a refined [invoke-virtual]. The two counters of
    [resolve_refs] are zero; and without [desuperify] no [invoke-super] is
    removed. *)
Theorem refine_virtual_callsites_counts this cs m desuperify specialize_rtype
    m' stats :
  refine_virtual_callsites this cs (Some m) desuperify specialize_rtype
    = Ok (Some m', stats) →
  counters stats
    = (0, 0,
       size_t_of_nat
         (count_pairs virtual_refined (default [] (get_code m))
            (default [] (get_code m'))),
       size_t_of_nat
         (count_pairs interface_replaced (default [] (get_code m))
            (default [] (get_code m'))),
       size_t_of_nat
         (count_pairs super_removed (default [] (get_code m))
            (default [] (get_code m')))) ∧
  (desuperify = false → num_invoke_super_removed stats = 0).
Proof.
  unfold refine_virtual_callsites. destruct (get_code m) as [code|] eqn:Hcode.
  - destruct (refine_virtual_callsites_loop _ _ _ _ _ _ _ _ _ _ _)
      as [[[code1 stats1] rd1]| | |] eqn:Hloop; simpl; try done.
    intros [= <- <-].
    destruct (refine_loop_facts _ _ _ _ _ _ _ _ _ _ _ _ _ _ Hloop)
      as (Hcount & Hnosuper & _).
    unfold counters in *. simpl in *.
    injection Hcount as -> -> -> -> ->. rewrite !iter_size_t_incr.
    split; [done|]. intros ->. by rewrite (Hnosuper eq_refl).
  - intros [= <- <-]. by rewrite Hcode.
Qed.

End refinement_facts.

Lemma refine_virtual_callsites_keeps_shape_witness :
  ∃ m',
    length (default [] (get_code m')) = length TestScope.body ∧
    as_ref m' = TestScope.caller.
Proof.
  destruct (refine_virtual_callsites_keeps_shape (collab := TestScope.program)
              (TestScope.pass false [] TestScope.sdk_none) TestScope.classes
              TestScope.foo true true _ _ eq_refl)
    as (m' & _ & Href & _ & _ & Hlen & _).
  exists m'. exact (conj Hlen Href).
Defined.

Lemma refine_virtual_callsites_counts_witness :
  ∃ m' stats,
    refine_virtual_callsites (collab := TestScope.program)
      (TestScope.pass false [] TestScope.sdk_none) TestScope.classes
      (Some TestScope.foo) true true = Ok (Some m', stats) ∧
    counters stats = (0, 0, 1, 1, 1).
Proof.
  eexists _, _. split; [reflexivity|].
  exact (proj1 (refine_virtual_callsites_counts (collab := TestScope.program)
                 (TestScope.pass false [] TestScope.sdk_none)
                 TestScope.classes TestScope.foo true true _ _ eq_refl)).
Defined.

(** ** The minimum SDK *)

Section min_sdk.
Context {collab : Collaborators}.

(** X11. Without [m_refine_to_external], the pass never reads
    [m_min_sdk_api]: [resolve_method_refs] and the loop body of
    [refine_virtual_callsites] do the same whatever it is, null included.
    With [m_refine_to_external] and a null [m_min_sdk_api], an external
    target that differs from the reference makes [resolve_method_refs]
    dereference the null pointer. *)
Theorem min_sdk_api_is_read_for_externals_only this :
  (m_refine_to_external this = false →
   ∀ api,
     (∀ cs caller insn stats,
        resolve_method_refs (with_min_sdk_api this api) cs caller insn stats
        = resolve_method_refs this cs caller insn stats) ∧
     (∀ cs method env is_support_lib desuperify specialize_rtype insn stats
        rtype_domain,
        refine_virtual_callsites_insn (with_min_sdk_api this api) cs method env
          is_support_lib desuperify specialize_rtype insn stats rtype_domain
        = refine_virtual_callsites_insn this cs method env is_support_lib
            desuperify specialize_rtype insn stats rtype_domain)) ∧
  (m_refine_to_external this = true →
   m_min_sdk_api this = None →
   ∀ cs caller insn stats mref mdef,
     get_method insn = Ok mref →
     resolve_method cs mref (opcode_to_search insn) caller = Some mdef →
     mdef ≠ mref →
     mref_is_external mdef = true →
     resolve_method_refs this cs caller insn stats = NullDereference).
Proof.
  split.
  - intros Hrefine api. split.
    + intros cs caller insn stats. unfold resolve_method_refs. simpl.
      destruct (negb (has_method insn)); [done|].
      destruct (get_method insn) as [mref| | |]; simpl; try done.
      destruct (resolve_method _ _ _ _) as [mdef|]; [|done].
      case_bool_decide; [done|]. rewrite Hrefine. simpl.
      destruct (mref_is_external mdef); done.
    + intros cs method env is_support_lib desuperify specialize_rtype insn
        stats rtype_domain.
      unfold refine_virtual_callsites_insn. simpl.
      destruct (if desuperify then _ else _) as [[insn1 stats1]| | |];
        simpl; try done.
      destruct (specialize_rtype && _); [done|].
      destruct (negb _ && negb _); [done|].
      destruct (get_method insn1) as [mref| | |]; simpl; try done.
      destruct (resolve_method _ _ _ _) as [callee|]; [|done].
      destruct (src insn1 0) as [this_reg| | |]; simpl; try done.
      destruct (envs_at env) as [e| | |]; simpl; try done.
      destruct (get_dex_type e this_reg) as [dex_type|]; [|done].
      destruct (get_inferred_method_def _ _ _ _ _ _) as [def_meth|]; [|done].
      destruct (type_class cs (mref_class def_meth)) as [def_cls|]; [|done].
      case_bool_decide; [done|]. rewrite Hrefine. simpl.
      destruct (cls_is_external def_cls); done.
  - intros Hrefine Hnull cs caller insn stats mref mdef Hget Hres Hne Hext.
    unfold resolve_method_refs.
    rewrite (get_method_has_method _ _ Hget), Hget. simpl.
    rewrite Hres, (bool_decide_eq_false_2 _ Hne), Hrefine, Hext. simpl.
    unfold missing_in_min_sdk. by rewrite Hnull.
Qed.

End min_sdk.

Lemma min_sdk_api_is_read_for_externals_only_witness :
  resolve_method_refs (collab := TestScope.external_target)
    (mkPass false true true [] None) TestScope.classes TestScope.caller
    (TestScope.invoke OPCODE_INVOKE_VIRTUAL TestScope.Build_ref) RefStats_init
  = resolve_method_refs (collab := TestScope.external_target)
      (TestScope.pass false [] TestScope.sdk_all) TestScope.classes
      TestScope.caller
      (TestScope.invoke OPCODE_INVOKE_VIRTUAL TestScope.Build_ref)
      RefStats_init ∧
  resolve_method_refs (collab := TestScope.external_target)
    (mkPass true true true [] None) TestScope.classes TestScope.caller
    (TestScope.invoke OPCODE_INVOKE_VIRTUAL TestScope.Build_ref) RefStats_init
  = NullDereference.
Proof.
  split.
  - exact (proj1 (proj1 (min_sdk_api_is_read_for_externals_only
                           (collab := TestScope.external_target)
                           (TestScope.pass false [] TestScope.sdk_all))
                    eq_refl None)
             TestScope.classes TestScope.caller
             (TestScope.invoke OPCODE_INVOKE_VIRTUAL TestScope.Build_ref)
             RefStats_init).
  - refine (proj2 (min_sdk_api_is_read_for_externals_only
                     (collab := TestScope.external_target)
                     (mkPass true true true [] None))
              eq_refl eq_refl TestScope.classes TestScope.caller
              (TestScope.invoke OPCODE_INVOKE_VIRTUAL TestScope.Build_ref)
              RefStats_init TestScope.Build_ref TestScope.Build_get
              eq_refl eq_refl _ eq_refl).
    discriminate.
Defined.

(** ** Summing statistics *)

Lemma size_t_add_comm n m : size_t_add n m = size_t_add m n.
Proof. unfold size_t_add. by rewrite N.add_comm. Qed.

Lemma size_t_add_assoc n m k :
  size_t_add (size_t_add n m) k = size_t_add n (size_t_add m k).
Proof.
  unfold size_t_add.
  rewrite N.Div0.add_mod_idemp_l, N.Div0.add_mod_idemp_r.
  by rewrite N.add_assoc.
Qed.

Lemma size_t_add_0_l n : n < SIZE_MAX_plus_1 → size_t_add 0 n = n.
Proof. intros Hlt. unfold size_t_add. by rewrite N.add_0_l, N.mod_small. Qed.

Lemma size_t_add_in_range n m : size_t_add n m < SIZE_MAX_plus_1.
Proof. unfold size_t_add. by apply N.mod_upper_bound. Qed.

Section sums.
Context {collab : Collaborators}.

(** X12. On the five counters, [operator+=] of [RefStats] is commutative
    and associative, so the order in which the statistics of the methods
    are summed does not matter for them; its result is a value of [size_t]
    in every counter; and adding to, or adding, default-constructed
    statistics keeps counters that are values of [size_t]. *)
Theorem RefStats_add_counters a b c :
  counters (RefStats_add a b) = counters (RefStats_add b a) ∧
  counters (RefStats_add (RefStats_add a b) c)
    = counters (RefStats_add a (RefStats_add b c)) ∧
  counters_in_range (RefStats_add a b) ∧
  (counters_in_range a →
     counters (RefStats_add RefStats_init a) = counters a ∧
     counters (RefStats_add a RefStats_init) = counters a).
Proof.
  unfold counters, counters_in_range, RefStats_add. simpl.
  split; [|split; [|split]].
  - by rewrite (size_t_add_comm (num_mref_resolved a)),
      (size_t_add_comm (num_fref_resolved a)),
      (size_t_add_comm (num_invoke_virtual_refined a)),
      (size_t_add_comm (num_invoke_interface_replaced a)),
      (size_t_add_comm (num_invoke_super_removed a)).
  - by rewrite !size_t_add_assoc.
  - repeat split; apply size_t_add_in_range.
  - intros (? & ? & ? & ? & ?).
    rewrite (size_t_add_comm (num_mref_resolved a)),
      (size_t_add_comm (num_fref_resolved a)),
      (size_t_add_comm (num_invoke_virtual_refined a)),
      (size_t_add_comm (num_invoke_interface_replaced a)),
      (size_t_add_comm (num_invoke_super_removed a)).
    rewrite !size_t_add_0_l by done. done.
Qed.

End sums.

Lemma RefStats_add_counters_witness :
  counters
    (RefStats_add (collab := TestScope.program) RefStats_init
       (incr_num_mref_resolved RefStats_init))
  = counters (incr_num_mref_resolved (RefStats_init (collab := TestScope.program))).
Proof.
  refine (proj1 (proj2 (proj2 (proj2 (RefStats_add_counters
            (collab := TestScope.program)
            (incr_num_mref_resolved RefStats_init) RefStats_init
            RefStats_init))) _)).
  repeat split.
Defined.

(** ** The type checker before and after completion *)

Section checker_facts.
Import IRTypeChecker.

(** X13. The two setters of [IRTypeChecker] work on a checker that has not
    run only: on a complete checker each returns the checker as it is. On
    any checker they keep the method, completion, verdict and message, so
    that [good()], [fail()] and [what()] answer the same before and after;
    each touches its own flag alone; they commute; and calling one twice is
    calling it once. *)
Theorem setters_keep_the_verdict c :
  (m_complete c = true →
     verify_moves c = c ∧ check_no_overwrite_this c = c) ∧
  (m_complete c = false →
     m_verify_moves (verify_moves c) = true ∧
     m_check_no_overwrite_this (check_no_overwrite_this c) = true) ∧
  (m_check_no_overwrite_this (verify_moves c) = m_check_no_overwrite_this c ∧
   m_verify_moves (check_no_overwrite_this c) = m_verify_moves c) ∧
  (good (verify_moves c) = good c ∧ fail (verify_moves c) = fail c ∧
   what (verify_moves c) = what c ∧
   good (check_no_overwrite_this c) = good c ∧
   fail (check_no_overwrite_this c) = fail c ∧
   what (check_no_overwrite_this c) = what c) ∧
  verify_moves (check_no_overwrite_this c)
    = check_no_overwrite_this (verify_moves c) ∧
  verify_moves (verify_moves c) = verify_moves c ∧
  check_no_overwrite_this (check_no_overwrite_this c)
    = check_no_overwrite_this c.
Proof.
  unfold verify_moves, check_no_overwrite_this, good, fail, what,
    check_completion, did_not_run.
  destruct c as [m va complete vm cnot g w]. simpl.
  destruct complete; simpl; repeat split; done.
Qed.

(** X14. On every checker, [good()], [fail()] and [what()] fail together
    or return together: they fail, with the text that names the method,
    exactly when [run()] has not completed; and [good()] returns a boolean
    exactly when [fail()] returns its negation. *)
Theorem accessors_fail_or_return_together c :
  (m_complete c = false ↔ good c = AssertionFailure (did_not_run c)) ∧
  (m_complete c = false ↔ fail c = AssertionFailure (did_not_run c)) ∧
  (m_complete c = false ↔ what c = AssertionFailure (did_not_run c)) ∧
  (m_complete c = true ↔ ∃ b w, good c = Ok b ∧ fail c = Ok (negb b) ∧
                                what c = Ok w) ∧
  (∀ b, good c = Ok b ↔ fail c = Ok (negb b)) ∧
  (∃ before after,
     did_not_run c = before ++ get_deobfuscated_name (m_dex_method c) ++ after).
Proof.
  unfold good, fail, what, check_completion.
  destruct (m_complete c); simpl.
  - repeat split; try done; try (intros [=]; done).
    + intros _. by exists (m_good c), (m_what c).
    + intros [= ->]. done.
    + intros [= Hb]. f_equal. by destruct (m_good c), b.
    + by exists "The type checker did not run on method ", ("." ++ newline).
  - repeat split; try done.
    + by intros (b & w & [=] & _).
    + by exists "The type checker did not run on method ", ("." ++ newline).
Qed.

End checker_facts.

Lemma setters_keep_the_verdict_witness :
  IRTypeChecker.verify_moves TestScope.failed_checker
  = TestScope.failed_checker.
Proof.
  exact (proj1 (proj1 (setters_keep_the_verdict TestScope.failed_checker)
                  eq_refl)).
Defined.

Lemma accessors_fail_or_return_together_witness :
  IRTypeChecker.fail TestScope.failed_checker = Ok (negb false).
Proof.
  exact (proj1 (proj1 (proj2 (proj2 (proj2 (proj2
           (accessors_fail_or_return_together TestScope.failed_checker)))))
           false) eq_refl).
Defined.

(** ** When the pass returns *)

Lemma well_formed_callsite insn :
  well_formed insn = true →
  insn_opcode insn ∈
    [OPCODE_INVOKE_VIRTUAL; OPCODE_INVOKE_SUPER; OPCODE_INVOKE_INTERFACE] →
  ∃ mref this_reg,
    get_method insn = Ok mref ∧ src insn 0 = Ok this_reg.
Proof.
  unfold well_formed, has_method, get_method, src. intros Hwf Hop.
  assert (match insn_ref insn with MethodRef _ => true | _ => false end
          && bool_decide (insn_srcs insn ≠ []) = true) as Hboth.
  { rewrite !elem_of_cons in Hop.
    destruct Hop as [Hop | [Hop | [Hop | Hop]]];
      [by rewrite Hop in Hwf | by rewrite Hop in Hwf | by rewrite Hop in Hwf |].
    by apply elem_of_nil in Hop. }
  apply andb_true_iff in Hboth as [Href Hsrcs].
  apply bool_decide_eq_true in Hsrcs.
  destruct (insn_ref insn) as [| |mref]; try done.
  destruct (insn_srcs insn) as [|r srcs]; [done|]. by exists mref, r.
Qed.

Lemma well_formed_return_object insn :
  well_formed insn = true →
  insn_opcode insn = OPCODE_RETURN_OBJECT →
  ∃ r, src insn 0 = Ok r.
Proof.
  unfold well_formed, src. intros Hwf Hop. rewrite Hop in Hwf.
  apply bool_decide_eq_true in Hwf.
  destruct (insn_srcs insn) as [|r srcs]; [done|]. by exists r.
Qed.

Lemma well_formed_invoke insn :
  well_formed insn = true →
  insn_opcode insn ∈
    [OPCODE_INVOKE_VIRTUAL; OPCODE_INVOKE_SUPER; OPCODE_INVOKE_INTERFACE;
     OPCODE_INVOKE_STATIC] →
  ∃ mref, get_method insn = Ok mref.
Proof.
  unfold well_formed, has_method, get_method. intros Hwf Hop.
  assert (match insn_ref insn with MethodRef _ => true | _ => false end = true)
    as Href.
  { rewrite !elem_of_cons in Hop.
    destruct Hop as [Hop | [Hop | [Hop | [Hop | Hop]]]];
      try (rewrite Hop in Hwf; by apply andb_true_iff in Hwf as [? _]);
      [by rewrite Hop in Hwf | by apply elem_of_nil in Hop]. }
  destruct (insn_ref insn) as [| |mref]; try done. by exists mref.
Qed.

Lemma well_formed_field insn field_search :
  well_formed insn = true →
  searched_as (insn_opcode insn) = Some field_search →
  ∃ fref, get_field insn = Ok fref.
Proof.
  unfold well_formed, get_field. intros Hwf Hsearch.
  destruct (insn_opcode insn); simpl in Hsearch; try discriminate Hsearch;
    simpl in Hwf; destruct (insn_ref insn) as [|fref|]; try done;
    by exists fref.
Qed.

Section returns.
Context {collab : Collaborators}.

Lemma missing_in_min_sdk_returns this is_external m :
  min_sdk_available this →
  (negb (m_refine_to_external this) && is_external) = false →
  ∃ missing, missing_in_min_sdk this is_external m = Ok missing.
Proof.
  unfold missing_in_min_sdk. intros Hsdk Hrefine.
  destruct is_external; [|eauto].
  rewrite andb_true_r, negb_false_iff in Hrefine.
  destruct Hsdk as [? | [api ->]]; [congruence|]. simpl. eauto.
Qed.

Lemma refine_only_returns this cs method e is_support_lib specialize_rtype
    insn stats rtype_domain :
  min_sdk_available this →
  well_formed insn = true →
  ∃ r, refine_virtual_callsites_insn this cs method (Some e) is_support_lib
         false specialize_rtype insn stats rtype_domain = Ok r.
Proof.
  intros Hsdk Hwf. unfold refine_virtual_callsites_insn. simpl.
  destruct (specialize_rtype && opcode.is_return_object (insn_opcode insn))
    eqn:Hret.
  { apply andb_true_iff in Hret as [_ Hret].
    destruct (well_formed_return_object insn Hwf) as [r ->];
      [by destruct (insn_opcode insn)|].
    simpl. destruct (collect_inferred_rtype _ _ _ _). eauto. }
  destruct (negb (opcode.is_invoke_virtual (insn_opcode insn)) &&
            negb (opcode.is_invoke_interface (insn_opcode insn))) eqn:Hop;
    [eauto|].
  destruct (well_formed_callsite insn Hwf) as (mref & this_reg & -> & Hsrc).
  { rewrite !elem_of_cons.
    destruct (insn_opcode insn); try discriminate Hop; eauto. }
  simpl. destruct (resolve_method _ _ _ _) as [callee|]; [|eauto].
  rewrite Hsrc. simpl.
  destruct (get_dex_type e this_reg) as [dex_type|]; [|eauto].
  destruct (get_inferred_method_def _ _ _ _ _ _) as [def_meth|]; [|eauto].
  destruct (type_class cs (mref_class def_meth)) as [def_cls|]; [|eauto].
  case_bool_decide; [eauto|].
  destruct (negb (m_refine_to_external this) && cls_is_external def_cls)
    eqn:Hrefine; [eauto|].
  destruct (missing_in_min_sdk_returns this (cls_is_external def_cls) def_meth
              Hsdk Hrefine) as [missing ->].
  simpl. destruct missing; [eauto|].
  destruct (opcode.is_invoke_interface _ && _); eauto.
Qed.

Lemma refine_insn_returns this cs method e is_support_lib desuperify
    specialize_rtype insn stats rtype_domain :
  min_sdk_available this →
  well_formed insn = true →
  ∃ r, refine_virtual_callsites_insn this cs method (Some e) is_support_lib
         desuperify specialize_rtype insn stats rtype_domain = Ok r.
Proof.
  intros Hsdk Hwf. destruct desuperify; [|by apply refine_only_returns].
  rewrite refine_virtual_callsites_insn_desuperify.
  destruct (decide (insn_opcode insn = OPCODE_INVOKE_SUPER)) as [Hop|Hop].
  - destruct (well_formed_callsite insn Hwf) as (mref & this_reg & Hget & Hsrc);
      [rewrite Hop, !elem_of_cons; eauto|].
    destruct (try_desuperify_cases cs method insn stats mref Hop Hget)
      as (insn1 & stats1 & -> & _ & Hyes & Hno).
    simpl. apply refine_only_returns; [done|].
    destruct (decide (insn_opcode insn1 = OPCODE_INVOKE_VIRTUAL)) as [Hv|Hv].
    + destruct (Hyes Hv) as (-> & _). unfold well_formed in *. simpl.
      by rewrite Hop in Hwf.
    + by destruct (Hno Hv) as (-> & _).
  - rewrite try_desuperify_not_super by done. simpl.
    by apply refine_only_returns.
Qed.

Lemma refine_loop_returns this cs method envs is_support_lib desuperify
    specialize_rtype code :
  min_sdk_available this →
  Forall (λ insn, well_formed insn = true) code →
  ∀ i stats rtype_domain,
    (∀ j, (i ≤ j < i + length code)%nat → is_Some (envs j)) →
    ∃ r, refine_virtual_callsites_loop this cs method envs is_support_lib
           desuperify specialize_rtype i code stats rtype_domain = Ok r.
Proof.
  intros Hsdk. induction 1 as [|insn rest Hwf _ IH]; simpl;
    intros i stats rtype_domain Henvs; [eauto|].
  destruct (Henvs i) as [e ->]; [lia|].
  destruct (refine_insn_returns this cs method e is_support_lib desuperify
              specialize_rtype insn stats rtype_domain Hsdk Hwf)
    as [[[insn1 stats1] rd1] ->].
  simpl. destruct (IH (S i) stats1 rd1) as [[[rest1 stats2] rd2] ->].
  - intros j Hj. apply Henvs. lia.
  - simpl. eauto.
Qed.

(** X15. [refine_virtual_callsites] returns normally, with the method it
    was given, whenever the body is well formed (every invoke of kind
    virtual, super or interface has its method reference and a receiver,
    every [return-object] its source), type inference has left an
    environment for every instruction of the body, and the minimum SDK is
    set or [m_refine_to_external] is off. *)
Theorem refine_virtual_callsites_returns this cs m desuperify specialize_rtype :
  min_sdk_available this →
  Forall (λ insn, well_formed insn = true) (default [] (get_code m)) →
  (∀ code j,
     get_code m = Some code → (j < length code)%nat →
     is_Some (get_type_environments cs (as_ref m) code j)) →
  ∃ m' stats,
    refine_virtual_callsites this cs (Some m) desuperify specialize_rtype
      = Ok (Some m', stats).
Proof.
  intros Hsdk Hwf Henvs. unfold refine_virtual_callsites.
  destruct (get_code m) as [code|] eqn:Hcode; [|eauto].
  destruct (refine_loop_returns this cs (as_ref m)
              (get_type_environments cs (as_ref m) code)
              (is_support_lib_type (mref_class (as_ref m))) desuperify
              specialize_rtype code Hsdk Hwf 0%nat RefStats_init
              DexTypeDomain_bottom)
    as [[[code1 stats1] rd1] ->].
  - intros j Hj. apply (Henvs code j eq_refl). lia.
  - simpl. eauto.
Qed.

End returns.

Lemma only_promotes_is_Some (cs cs1 : ClassStore) t :
  only_promotes cs cs1 → is_Some (cs !! t) → is_Some (type_class cs1 t).
Proof.
  intros Hle [ci Hci]. specialize (Hle t). rewrite Hci in Hle.
  unfold type_class. destruct Hle as [-> | [_ ->]]; simpl; eauto.
Qed.

Section walk_returns.
Context {collab : Collaborators}.

Lemma resolve_refs_insn_returns this cs0 cs caller insn stats :
  min_sdk_available this →
  closed_hierarchy cs0 caller →
  only_promotes cs0 cs →
  well_formed insn = true →
  ∃ r, resolve_refs_insn this cs caller insn stats = Ok r.
Proof.
  intros Hsdk Hclosed Hle Hwf. destruct (Hclosed cs Hle) as [Hm Hf].
  rewrite resolve_refs_insn_switch.
  destruct (searched_as (insn_opcode insn)) as [field_search|] eqn:Hsearch.
  - destruct (well_formed_field insn field_search Hwf Hsearch) as [fref Hget].
    unfold resolve_field_refs. rewrite Hget. simpl.
    destruct (fref_is_def fref); [eauto|].
    destruct (resolve_field cs fref field_search) as [real_ref|] eqn:Hres;
      [|eauto].
    destruct (negb (fref_is_external real_ref) &&
              negb (bool_decide (real_ref = fref))); [|eauto].
    destruct (only_promotes_is_Some cs0 cs (fref_class real_ref) Hle
                (Hf _ _ _ Hres)) as [cls ->].
    destruct (negb (is_public cls)); [|eauto].
    destruct (cls_is_external cls); eauto.
  - case_bool_decide as Hkind; [|eauto].
    destruct (well_formed_invoke insn Hwf Hkind) as [mref Hget].
    unfold resolve_method_refs.
    rewrite (get_method_has_method _ _ Hget), Hget. simpl.
    destruct (resolve_method cs mref (opcode_to_search insn) caller)
      as [mdef|] eqn:Hres; [|eauto].
    case_bool_decide; [eauto|].
    destruct (negb (m_refine_to_external this) && mref_is_external mdef)
      eqn:Hrefine; [eauto|].
    destruct (missing_in_min_sdk_returns this (mref_is_external mdef) mdef
                Hsdk Hrefine) as [missing ->].
    simpl. destruct missing; [eauto|].
    destruct (only_promotes_is_Some cs0 cs (mref_class mdef) Hle
                (Hm _ _ _ Hres)) as [cls ->].
    destruct (cls_is_external cls && negb (is_public cls)); simpl; eauto.
Qed.

Lemma resolve_refs_loop_returns this cs0 caller code :
  min_sdk_available this →
  closed_hierarchy cs0 caller →
  Forall (λ insn, well_formed insn = true) code →
  ∀ cs stats,
    only_promotes cs0 cs →
    ∃ r, resolve_refs_loop this cs caller code stats = Ok r.
Proof.
  intros Hsdk Hclosed. induction 1 as [|insn rest Hwf _ IH]; simpl;
    intros cs stats Hle; [eauto|].
  destruct (resolve_refs_insn_returns this cs0 cs caller insn stats Hsdk
              Hclosed Hle Hwf) as [[[cs1 insn1] stats1] Hinsn].
  rewrite Hinsn. simpl.
  destruct (IH cs1 stats1) as [[[cs2 rest2] stats2] ->].
  - eauto using only_promotes_trans, resolve_refs_insn_only_promotes.
  - simpl. eauto.
Qed.

(** X16. [resolve_refs] returns normally, with the method it was given,
    whenever the body is well formed (every invoke has its method
    reference, every field access its field reference), the hierarchy is
    closed (the lookups only find members of loaded classes), and the
    minimum SDK is set or [m_refine_to_external] is off: the assertion on
    the class of a field and the dereference of the class of a method then
    never fail. *)
Theorem resolve_refs_returns this cs m :
  min_sdk_available this →
  closed_hierarchy cs (as_ref m) →
  Forall (λ insn, well_formed insn = true) (default [] (get_code m)) →
  ∃ cs' m' stats, resolve_refs this cs (Some m) = Ok (cs', Some m', stats).
Proof.
  intros Hsdk Hclosed Hwf. unfold resolve_refs.
  destruct (get_code m) as [code|]; [|eauto].
  destruct (resolve_refs_loop_returns this cs (as_ref m) code Hsdk Hclosed Hwf
              cs RefStats_init (only_promotes_refl cs))
    as [[[cs1 code1] stats1] ->].
  simpl. eauto.
Qed.




End walk_returns.

Lemma refine_virtual_callsites_returns_witness :
  ∃ m' stats,
    refine_virtual_callsites (collab := TestScope.program)
      (TestScope.pass false [] TestScope.sdk_none) TestScope.classes
      (Some TestScope.foo) true true = Ok (Some m', stats).
Proof.
  apply (refine_virtual_callsites_returns (collab := TestScope.program)).
  - right. exists TestScope.sdk_none. reflexivity.
  - repeat constructor.
  - intros code j _ _. exists (Some "LDerived;"). reflexivity.
Defined.

Lemma resolve_refs_returns_witness :
  ∃ cs' m' stats,
    resolve_refs (collab := TestScope.program)
      (TestScope.pass false [] TestScope.sdk_none) TestScope.classes
      (Some TestScope.foo) = Ok (cs', Some m', stats).
Proof.
  apply (resolve_refs_returns (collab := TestScope.program)).
  - right. exists TestScope.sdk_none. reflexivity.
  - intros cs1 _. split.
    + intros mref search mdef Hres. injection Hres as <-.
      exists TestScope.internal_hidden. reflexivity.
    + intros fref search real_ref Hres. injection Hres as <-.
      exists TestScope.internal_hidden. reflexivity.
  - repeat constructor.
Defined.


(** ** The statistics of a method in the first walk *)

Lemma size_t_add_of_nat_0 k : size_t_add (size_t_of_nat k) 0 = size_t_of_nat k.
Proof.
  unfold size_t_add, size_t_of_nat. by rewrite N.add_0_r, N.Div0.mod_mod.
Qed.

Lemma size_t_add_0_of_nat k : size_t_add 0 (size_t_of_nat k) = size_t_of_nat k.
Proof. by rewrite size_t_add_comm, size_t_add_of_nat_0. Qed.

Section first_walk.
Context {collab : Collaborators}.

(** X18. In the first walk of [run_pass], the statistics of a method are
    those of [resolve_refs] and of [refine_virtual_callsites] side by side:
    the two steps run one after the other on the same body, the first
    through the class store it was given and the second through the one
    the first left; the counters of resolved references count the
    instructions the first step changed, and the three counters of the
    refinement count what the second step changed in the body the first
    left. *)
Theorem run_pass_first_counts this cs m cs' m2 stats :
  run_pass_first this cs m = Ok (cs', Some m2, stats) →
  ∃ m1 resolved refined,
    resolve_refs this cs (Some m) = Ok (cs', Some m1, resolved) ∧
    refine_virtual_callsites this cs' (Some m1) (m_desuperify this)
      (m_specialize_rtype this) = Ok (Some m2, refined) ∧
    stats = RefStats_add resolved refined ∧
    counters stats
    = (size_t_of_nat
         (count_pairs method_rewritten (default [] (get_code m))
            (default [] (get_code m1))),
       size_t_of_nat
         (count_pairs field_rewritten (default [] (get_code m))
            (default [] (get_code m1))),
       size_t_of_nat
         (count_pairs virtual_refined (default [] (get_code m1))
            (default [] (get_code m2))),
       size_t_of_nat
         (count_pairs interface_replaced (default [] (get_code m1))
            (default [] (get_code m2))),
       size_t_of_nat
         (count_pairs super_removed (default [] (get_code m1))
            (default [] (get_code m2)))).
Proof.
  unfold run_pass_first.
  destruct (resolve_refs this cs (Some m)) as [[[cs1 m1] s1]| | |] eqn:Hresolve;
    simpl; try done.
  destruct (refine_virtual_callsites this cs1 m1 (m_desuperify this)
              (m_specialize_rtype this)) as [[m2' s2]| | |] eqn:Hrefine;
    simpl; try done.
  intros [= <- -> <-].
  assert (∃ m1', m1 = Some m1') as [m1' ->].
  { unfold resolve_refs in Hresolve. destruct (get_code m).
    - destruct (resolve_refs_loop _ _ _ _ _) as [[[? ?] ?]| | |];
        simpl in Hresolve; try done. injection Hresolve as _ <- _. eauto.
    - injection Hresolve as _ <- _. eauto. }
  exists m1', s1, s2. split; [done|]. split; [done|]. split; [done|].
  assert (counters s1
          = (size_t_of_nat
               (count_pairs method_rewritten (default [] (get_code m))
                  (default [] (get_code m1'))),
             size_t_of_nat
               (count_pairs field_rewritten (default [] (get_code m))
                  (default [] (get_code m1'))), 0, 0, 0)) as Hs1.
  { unfold resolve_refs in Hresolve. unfold counters.
    destruct (get_code m) as [code|] eqn:Hcode.
    - destruct (resolve_refs_loop this cs (as_ref m) code RefStats_init)
        as [[[cs2 code1] stats1]| | |] eqn:Hloop; simpl in Hresolve; try done.
      injection Hresolve as <- <- <-.
      destruct (resolve_refs_loop_counts _ _ _ _ _ _ _ _ Hloop)
        as (-> & -> & -> & -> & -> & _).
      simpl. by rewrite !iter_size_t_incr.
    - injection Hresolve as <- <- <-. by rewrite Hcode. }
  assert (counters s2
          = (0, 0,
             size_t_of_nat
               (count_pairs virtual_refined (default [] (get_code m1'))
                  (default [] (get_code m2))),
             size_t_of_nat
               (count_pairs interface_replaced (default [] (get_code m1'))
                  (default [] (get_code m2))),
             size_t_of_nat
               (count_pairs super_removed (default [] (get_code m1'))
                  (default [] (get_code m2))))) as Hs2.
  { unfold refine_virtual_callsites in Hrefine. unfold counters.
    destruct (get_code m1') as [code|] eqn:Hcode.
    - destruct (refine_virtual_callsites_loop _ _ _ _ _ _ _ _ _ _ _)
        as [[[code2 stats2] rd2]| | |] eqn:Hloop; simpl in Hrefine; try done.
      injection Hrefine as Hm2 Hs2. subst m2 s2.
      destruct (refine_loop_facts _ _ _ _ _ _ _ _ _ _ _ _ _ _ Hloop)
        as (Hcount & _ & _).
      unfold counters in Hcount. simpl in *.
      injection Hcount as -> -> -> -> ->. by rewrite !iter_size_t_incr.
    - injection Hrefine as <- <-. by rewrite Hcode. }
  unfold counters in *. unfold RefStats_add. simpl.
  injection Hs1 as -> -> -> -> ->. injection Hs2 as -> -> -> -> ->.
  by rewrite !size_t_add_of_nat_0, !size_t_add_0_of_nat.
Qed.

End first_walk.

Lemma run_pass_first_counts_witness :
  ∃ cs' m2 stats,
    run_pass_first (collab := TestScope.program)
      (TestScope.pass false [] TestScope.sdk_none) TestScope.classes
      TestScope.foo = Ok (cs', Some m2, stats) ∧
    ∃ m1 resolved refined,
      resolve_refs (collab := TestScope.program)
        (TestScope.pass false [] TestScope.sdk_none) TestScope.classes
        (Some TestScope.foo) = Ok (cs', Some m1, resolved) ∧
      stats = RefStats_add resolved refined.
Proof.
  eexists _, _, _. split; [reflexivity|].
  destruct (run_pass_first_counts (collab := TestScope.program)
              (TestScope.pass false [] TestScope.sdk_none) TestScope.classes
              TestScope.foo _ _ _ eq_refl)
    as (m1 & resolved & refined & Hresolve & _ & Hsum & _).
  exists m1, resolved, refined. exact (conj Hresolve Hsum).
Defined.

(** ** When [run_pass] returns *)

Lemma well_formed_rewritten insn insn' :
  insn_opcode insn' = insn_opcode insn →
  insn_srcs insn' = insn_srcs insn →
  (insn' ≠ insn →
     (field_rewritten insn insn' = true ∧
      is_Some (searched_as (insn_opcode insn))) ∨
     (method_rewritten insn insn' = true ∧
      insn_opcode insn ∈
        [OPCODE_INVOKE_VIRTUAL; OPCODE_INVOKE_SUPER; OPCODE_INVOKE_INTERFACE;
         OPCODE_INVOKE_STATIC])) →
  well_formed insn = true → well_formed insn' = true.
Proof.
  intros Hop Hsrcs Hcase Hwf.
  destruct (decide (insn' = insn)) as [->|Hne]; [done|].
  unfold well_formed, has_method in *. rewrite Hop, Hsrcs.
  destruct (Hcase Hne) as [[Hrewritten _] | [Hrewritten _]].
  - unfold field_rewritten in Hrewritten.
    destruct (insn_ref insn), (insn_ref insn'); done.
  - unfold method_rewritten in Hrewritten.
    destruct (insn_ref insn), (insn_ref insn'); done.
Qed.

Section run_pass_facts.
Context {collab : Collaborators}.

Lemma walk_methods_returns f (P : DexMethod → Prop) (cs0 : ClassStore) :
  (∀ cs m,
     only_promotes cs0 cs → P m →
     ∃ cs2 m2 stats, f cs m = Ok (cs2, m2, stats) ∧ only_promotes cs cs2) →
  ∀ scope,
    Forall P scope →
    ∀ cs acc,
      only_promotes cs0 cs → ∃ r, walk_methods f cs scope acc = Ok r.
Proof.
  intros Hf scope. induction 1 as [|m rest Hm _ IH]; simpl; intros cs acc Hle;
    [eauto|].
  destruct (Hf cs m Hle Hm) as (cs2 & m2 & stats & -> & Hle2). simpl.
  destruct (IH cs2 (RefStats_add acc stats)) as [[[cs3 rest3] acc3] ->];
    [by eapply only_promotes_trans|].
  simpl. eauto.
Qed.

Lemma resolve_refs_loop_well_formed this method code :
  ∀ cs stats cs' code' stats',
    resolve_refs_loop this cs method code stats = Ok (cs', code', stats') →
    Forall (λ insn, well_formed insn = true) code →
    Forall (λ insn, well_formed insn = true) code'.
Proof.
  intros cs stats cs' code' stats' Hloop.
  apply resolve_refs_loop_shape in Hloop.
  induction Hloop as [|insn insn' rest rest' (Hop & Hsrcs & Hcase) _ IH];
    [done|].
  intros [Hwf Hrest]%Forall_cons. constructor; [|by apply IH].
  by apply (well_formed_rewritten insn).
Qed.

Lemma run_pass_first_returns this cs0 cs m :
  min_sdk_available this →
  only_promotes cs0 cs →
  closed_hierarchy cs0 (as_ref m) →
  Forall (λ insn, well_formed insn = true) (default [] (get_code m)) →
  (∀ cs1 code j,
     only_promotes cs0 cs1 → (j < length code)%nat →
     is_Some (get_type_environments cs1 (as_ref m) code j)) →
  ∃ cs2 m2 stats,
    run_pass_first this cs m = Ok (cs2, m2, stats) ∧ only_promotes cs cs2.
Proof.
  intros Hsdk Hle Hclosed Hwf Henvs.
  unfold run_pass_first, resolve_refs.
  destruct (get_code m) as [code|] eqn:Hcode; simpl in Hwf.
  - destruct (resolve_refs_loop_returns this cs0 (as_ref m) code Hsdk Hclosed
                Hwf cs RefStats_init Hle) as [[[cs1 code1] stats1] Hloop].
    rewrite Hloop. simpl.
    pose proof (resolve_refs_loop_only_promotes _ _ _ _ _ _ _ _ Hloop) as Hle1.
    pose proof (resolve_refs_loop_well_formed _ _ _ _ _ _ _ _ Hloop Hwf)
      as Hwf1.
    destruct (refine_loop_returns this cs1 (as_ref m)
                (get_type_environments cs1 (as_ref m) code1)
                (is_support_lib_type (mref_class (as_ref m)))
                (m_desuperify this) (m_specialize_rtype this) code1 Hsdk Hwf1
                0%nat RefStats_init DexTypeDomain_bottom)
      as [[[code2 stats2] rd2] Hrefine].
    { intros j Hj. apply Henvs; [by eapply only_promotes_trans | lia]. }
    rewrite Hrefine. simpl. eauto 6.
  - simpl. unfold refine_virtual_callsites. rewrite Hcode. simpl.
    eexists _, _, _. split; [done|]. apply only_promotes_refl.
Qed.

(** X19. [run_pass] without [m_specialize_rtype] returns normally whenever
    the minimum SDK is set, every body of the scope is well formed, the
    lookups only find members of classes that are loaded, and type
    inference leaves an environment for every instruction: none of the
    assertions of the pass fails, no null class or SDK is dereferenced and
    no [envs.at] is out of range, in any method of the scope and whatever
    the methods before it have made public. *)
Theorem run_pass_returns this cs scope mgr :
  is_Some (m_min_sdk_api this) →
  m_specialize_rtype this = false →
  Forall
    (λ m,
       closed_hierarchy cs (as_ref m) ∧
       Forall (λ insn, well_formed insn = true) (default [] (get_code m)) ∧
       ∀ cs1 code j,
         only_promotes cs cs1 → (j < length code)%nat →
         is_Some (get_type_environments cs1 (as_ref m) code j))
    scope →
  ∃ cs' scope' mgr', run_pass this (cs, scope) mgr = Ok (cs', scope', mgr').
Proof.
  intros Hsdk Hspec Hscope. unfold run_pass.
  rewrite (bool_decide_eq_true_2 _ Hsdk). simpl.
  destruct (walk_methods_returns (run_pass_first this) _ cs
              (λ cs1 m Hle '(conj Hclosed (conj Hwf Henvs)),
                 run_pass_first_returns this cs cs1 m (or_intror Hsdk) Hle
                   Hclosed Hwf Henvs)
              scope Hscope cs RefStats_init (only_promotes_refl cs))
    as [[[cs1 scope1] stats1] ->].
  simpl. rewrite Hspec. simpl. eauto.
Qed.

End run_pass_facts.

Lemma run_pass_returns_witness :
  ∃ cs' scope' mgr',
    run_pass (collab := TestScope.program)
      (mkPass true true false [] (Some TestScope.sdk_none))
      (TestScope.classes, [TestScope.foo; TestScope.foo]) []
    = Ok (cs', scope', mgr').
Proof.
  apply (run_pass_returns (collab := TestScope.program)).
  - exists TestScope.sdk_none. reflexivity.
  - reflexivity.
  - repeat constructor.
    + intros mref search mdef Hres. injection Hres as <-.
      exists TestScope.internal_hidden. reflexivity.
    + intros fref search real_ref Hres. injection Hres as <-.
      exists TestScope.internal_hidden. reflexivity.
    + intros cs1 code j _ _. exists (Some "LDerived;"). reflexivity.
    + intros mref search mdef Hres. injection Hres as <-.
      exists TestScope.internal_hidden. reflexivity.
    + intros fref search real_ref Hres. injection Hres as <-.
      exists TestScope.internal_hidden. reflexivity.
    + intros cs1 code j _ _. exists (Some "LDerived;"). reflexivity.
Defined.
